(** * KGP-Struct topology optimizer: a shallow embedding of
      [topology_module/backend.py] and of the driver in
      [topology_module/ui.py].

    Numbers.  Python floats are modelled as exact rationals ([Q]); rounding
    error, overflow and NaN are outside the model.  [math.hypot] is a library
    function with an irrational result, so the development is parametric in
    it (section variable [hypot]); [hypot9], a square root truncated at nine
    decimals, is the instance used to run the model on concrete inputs.

    Objects.  [elements_metadata] is a list of mutable dicts; [active_list]
    holds references to the same dicts.  The list is modelled as a store
    ([list Member.t]) and a reference as an index into it, so that a write
    through [active_list] or through a twin lookup is seen by every alias.

    Solver.  anastruct is an external collaborator.  Its bookkeeping calls
    ([add_element], [add_support_*], [point_load]) are modelled as updates of
    a [SystemElements] record; the calls that take a node id raise
    [TypeError] when the id is [None].  [solve] followed by
    [get_element_results] is an oracle (section variable [solve]). *)

From Stdlib Require Import ZArith QArith Qround Qabs Qpower Lia Lqa.
From Stdlib Require Import Sorting.Sorted.
From Stdlib Require Import String.
From stdpp Require Import base option list.

Local Open Scope Q_scope.

(** ** Python numerics *)

Definition Qltb (a b : Q) : bool := negb (Qle_bool b a).
Infix "<?" := Qltb (at level 70, no associativity) : Q_scope.
Infix "<=?" := Qle_bool (at level 70, no associativity) : Q_scope.

Definition Qmax (a b : Q) : Q := if a <? b then b else a.

(** Round half to even at an integer, the rule of Python's [round]. *)
Definition round_half_even (x : Q) : Z :=
  let f := Qfloor x in
  let r := x - inject_Z f in
  if r <? 1 # 2 then f
  else if (1 # 2) <? r then (f + 1)%Z
  else if Z.even f then f else (f + 1)%Z.

(** [round(x, 3)] *)
Definition round3 (x : Q) : Q := inject_Z (round_half_even (x * 1000)) / 1000.

(** [int(x)] on a float: truncation toward zero. *)
Definition py_int (x : Q) : Z := if 0 <=? x then Qfloor x else Qceiling x.

(** A computable stand-in for [math.hypot]: the square root of [a^2 + b^2]
    truncated at nine decimals. *)
Definition hypot9 (a b : Q) : Q :=
  let s := a * a + b * b in
  inject_Z (Z.sqrt (Qfloor (s * inject_Z (10 ^ 18)))) / inject_Z (10 ^ 9).

(** ** Exceptions *)

Inductive exn : Type :=
  | IndexError
  | KeyError
  | TypeError
  | SolverError.

Inductive result (A : Type) : Type :=
  | Ok (a : A)
  | Raise (e : exn).
Arguments Ok {A} a.
Arguments Raise {A} e.

#[global] Instance result_ret : MRet result := fun A a => Ok a.

#[global] Instance result_bind : MBind result := fun A B k r =>
  match r with
  | Ok a => k a
  | Raise e => Raise e
  end.

Definition of_option {A} (e : exn) (o : option A) : result A :=
  match o with
  | Some a => Ok a
  | None => Raise e
  end.

(** ** Data model *)

Definition point : Type := Q * Q.

(** One entry of [elements_metadata].  [mirror_id = None] is Python's [None];
    [force_val = None] is the key being absent (it is first written by
    [run_iteration]). *)
Module Member.
Record t : Type := mk {
    id : nat;
    p1 : point;
    p2 : point;
    mid_x : Q;
    mid_y : Q;
    length : Q;
    active : bool;
    strain_energy : Q;
    mirror_id : option nat;
    force_val : option Q
  }.

Definition set_active (b : bool) (el : t) : t :=
    mk (id el) (p1 el) (p2 el) (mid_x el) (mid_y el) (length el)
       b (strain_energy el) (mirror_id el) (force_val el).

Definition set_strain_energy (e : Q) (el : t) : t :=
    mk (id el) (p1 el) (p2 el) (mid_x el) (mid_y el) (length el)
       (active el) e (mirror_id el) (force_val el).

Definition set_mirror_id (m : option nat) (el : t) : t :=
    mk (id el) (p1 el) (p2 el) (mid_x el) (mid_y el) (length el)
       (active el) (strain_energy el) m (force_val el).

Definition set_force_val (f : Q) (el : t) : t :=
    mk (id el) (p1 el) (p2 el) (mid_x el) (mid_y el) (length el)
       (active el) (strain_energy el) (mirror_id el) (Some f).
End Member.

(** The solver's side of one element: the two stiffness values. *)
Record Element : Type := mkElement {
  EA : Q;
  EI : Q
}.

Inductive support_kind : Type := Hinged | Roll | Fixed.

(** The part of anastruct's [SystemElements] the optimizer touches.
    Elements are numbered 1, 2, ... in creation order, so [element_map] is a
    list and element [k] sits at position [k - 1]; likewise for [node_map]. *)
Record SystemElements : Type := mkSystem {
  sys_EA : Q;
  sys_EI : Q;
  element_map : list Element;
  node_map : list point;
  supports : list (support_kind * option nat);
  loads : list (option nat * Q)
}.

Definition new_system (ea ei : Q) : SystemElements :=
  mkSystem ea ei [] [] [] [].

Definition point_eqb (a b : point) : bool :=
  Qeq_bool (fst a) (fst b) && Qeq_bool (snd a) (snd b).

Definition add_node (p : point) (nodes : list point) : list point :=
  if existsb (point_eqb p) nodes then nodes else nodes ++ [p].

(** [ss.add_element(location=[p1, p2])]: the end points become nodes unless
    they already are, and a new element with the system's stiffness is
    appended. *)
Definition add_element (ss : SystemElements) (a b : point) : SystemElements :=
  mkSystem (sys_EA ss) (sys_EI ss)
           (element_map ss ++ [mkElement (sys_EA ss) (sys_EI ss)])
           (add_node b (add_node a (node_map ss)))
           (supports ss) (loads ss).

(** [ss.add_support_hinged(node_id=nid)] and its siblings: a [TypeError]
    when the node id is [None]. *)
Definition add_support (k : support_kind) (nid : option nat)
    (ss : SystemElements) : result SystemElements :=
  match nid with
  | Some _ =>
      Ok (mkSystem (sys_EA ss) (sys_EI ss) (element_map ss) (node_map ss)
                   (supports ss ++ [(k, nid)]) (loads ss))
  | None => Raise TypeError
  end.

(** [ss.point_load(node_id=nid, Fy=fy)]: a [TypeError] when the node id is
    [None]. *)
Definition point_load (nid : option nat) (fy : Q)
    (ss : SystemElements) : result SystemElements :=
  match nid with
  | Some _ =>
      Ok (mkSystem (sys_EA ss) (sys_EI ss) (element_map ss) (node_map ss)
                   (supports ss) (loads ss ++ [(nid, fy)]))
  | None => Raise TypeError
  end.

Definition set_element_map (m : list Element) (ss : SystemElements)
    : SystemElements :=
  mkSystem (sys_EA ss) (sys_EI ss) m (node_map ss) (supports ss) (loads ss).

(** [element_map[k]]: a [KeyError] outside [1 .. len]. *)
Definition lookup_element (m : list Element) (k : nat) : option Element :=
  match k with
  | O => None
  | S i => m !! i
  end.

(** The optimizer object. *)
Record TopologyOptimizer : Type := mkOptimizer {
  ss : SystemElements;
  elements_metadata : list Member.t;
  load_node_id : option nat;
  E_active : Q
}.

(** ** SectionPropertyCalculator *)

Definition calculate_i_section_properties (B D tw tf : Q) : Q * Q :=
  let area := (2 * B * tf) + ((D - 2 * tf) * tw) in
  let Ixx := (1 / 12) * (B * D ^ 3)
             - (1 / 12) * ((B - tw) * (D - 2 * tf) ^ 3) in
  (area, Ixx).

Record section_params : Type := mkSection {
  sec_B : Q;
  sec_D : Q;
  sec_tw : Q;
  sec_tf : Q
}.

(** ** GroundStructureBuilder *)

Definition x_divs : nat := 8.
Definition y_divs : nat := 3.

Definition Qnat (n : nat) : Q := inject_Z (Z.of_nat n).

Definition grid_nodes (span height : Q) : list point :=
  let dx := span / Qnat x_divs in
  let dy := height / Qnat y_divs in
  flat_map (fun i =>
    map (fun j => (round3 (Qnat i * dx), round3 (Qnat j * dy)))
        (seq 0 (S y_divs)))
    (seq 0 (S x_divs)).

(** [itertools.combinations(l, 2)] *)
Fixpoint combinations2 {A} (l : list A) : list (A * A) :=
  match l with
  | [] => []
  | x :: t => map (pair x) t ++ combinations2 t
  end.

Definition eps : Q := 1 # 1000.
Definition tolerance : Q := 1 # 10.

Section Optimizer.

Variable hypot : Q -> Q -> Q.

Definition max_connection_distance (span : Q) : Q :=
    span / Qnat x_divs * (16 # 10).

Definition pair_dist (pq : point * point) : Q :=
    hypot (fst (snd pq) - fst (fst pq)) (snd (snd pq) - snd (fst pq)).

  (** [1e-3 < dist <= max_dist] *)
Definition qualifies (max_dist : Q) (pq : point * point) : bool :=
    (eps <? pair_dist pq) && (pair_dist pq <=? max_dist).

  (** The dict appended to [elements_metadata]. *)
Definition new_member (el_id : nat) (pq : point * point) : Member.t :=
    let '(p1, p2) := pq in
    let mid_x := (fst p1 + fst p2) / 2 in
    let mid_y := (snd p1 + snd p2) / 2 in
    Member.mk el_id p1 p2 mid_x mid_y (pair_dist pq) true 0 None None.

  (** Body of the loop over node pairs. *)
Definition connect (max_dist : Q)
      (st : SystemElements * list Member.t) (pq : point * point)
      : SystemElements * list Member.t :=
    if qualifies max_dist pq then
      let ss' := add_element (fst st) (fst pq) (snd pq) in
      let el_id := length (element_map ss') in
      (ss', snd st ++ [new_member el_id pq])
    else st.

Definition build_ground_structure (ss0 : SystemElements) (span height : Q)
      : SystemElements * list Member.t :=
    fold_left (connect (max_connection_distance span))
              (combinations2 (grid_nodes span height)) (ss0, []).

  (** ** SymmetryMapper *)

  (** The inner search: the first candidate right of the centre line whose
      midpoint is within the tolerance of the target. *)
Fixpoint find_twin (center_line target_x target_y : Q)
      (candidates : list Member.t) : option nat :=
    match candidates with
    | [] => None
    | potential :: rest =>
        if center_line <? Member.mid_x potential then
          let err := hypot (Member.mid_x potential - target_x)
                           (Member.mid_y potential - target_y) in
          if err <? tolerance then Some (Member.id potential)
          else find_twin center_line target_x target_y rest
        else find_twin center_line target_x target_y rest
    end.

Definition assign_mirror (span : Q) (all : list Member.t) (el : Member.t)
      : Member.t :=
    let center_line := span / 2 in
    if Member.mid_x el <? center_line then
      let target_x := span - Member.mid_x el in
      let target_y := Member.mid_y el in
      Member.set_mirror_id (find_twin center_line target_x target_y all) el
    else Member.set_mirror_id None el.

Definition map_symmetry (span : Q) (md : list Member.t) : list Member.t :=
    map (assign_mirror span md) md.

  (** ** Supports and load *)

  (** [get_nid]: the id of the first node at minimal distance. *)
Fixpoint get_nid_from (x y : Q) (nodes : list point) (nid : nat)
      (best : option nat) (md : option Q) : option nat :=
    match nodes with
    | [] => best
    | n :: rest =>
        let d := hypot (fst n - x) (snd n - y) in
        let closer := match md with
                      | None => true
                      | Some m => d <? m
                      end in
        if closer then get_nid_from x y rest (S nid) (Some nid) (Some d)
        else get_nid_from x y rest (S nid) best md
    end.

Definition get_nid (ss : SystemElements) (x y : Q) : option nat :=
    get_nid_from x y (node_map ss) 1 None None.

Definition apply_supports (support_type : string) (id_L id_R : option nat)
      (ss : SystemElements) : result SystemElements :=
    if String.eqb support_type "Pinned-Roller" then
      add_support Hinged id_L ss ≫= add_support Roll id_R
    else if String.eqb support_type "Fixed-Fixed" then
      add_support Fixed id_L ss ≫= add_support Fixed id_R
    else if String.eqb support_type "Pinned-Pinned" then
      add_support Hinged id_L ss ≫= add_support Hinged id_R
    else Ok ss.

Definition initialize_structure (span height load_kn : Q)
      (support_type : string) (E_GPa : Q) (sp : section_params)
      : result TopologyOptimizer :=
    let '(A, Ixx) := calculate_i_section_properties
                     (sec_B sp) (sec_D sp) (sec_tw sp) (sec_tf sp) in
    let E_active := E_GPa * inject_Z (10 ^ 9) in
    let EA := E_active * A in
    let EI := E_active * Ixx in
    let '(ss1, md) := build_ground_structure (new_system EA EI) span height in
    let md := map_symmetry span md in
    let id_L := get_nid ss1 0 0 in
    let id_R := get_nid ss1 span 0 in
    ss2 ← apply_supports support_type id_L id_R ss1;
    let load_node := get_nid ss2 (span / 2) height in
    ss3 ← point_load load_node (- load_kn) ss2;
    Ok (mkOptimizer ss3 md load_node E_active).

End Optimizer.

(** ** Solver results *)

(** The value under key ['N'] of [get_element_results]: the key may be
    missing, hold [None], a scalar, or a list sampled along the member. *)
Inductive n_value : Type :=
  | N_absent
  | N_none
  | N_scalar (x : Q)
  | N_list (raw : list (option Q)).

(** For ['Nmin'] and ['Nmax'] the outer option is the presence of the key and
    the inner one Python's [None]. *)
Record element_results : Type := mkResults {
  res_N : n_value;
  res_Nmin : option (option Q);
  res_Nmax : option (option Q)
}.

(** [res.get(key, 0)] followed by [if v is None: v = 0] *)
Definition get_or_zero (v : option (option Q)) : Q :=
  match v with
  | Some (Some x) => x
  | Some None => 0
  | None => 0
  end.

(** [max] of a non-empty list: the first maximal element. *)
Definition py_max (x : Q) (l : list Q) : Q := fold_left Qmax l x.

(** [[abs(x) for x in raw_n if x is not None]] *)
Definition valid_forces (raw : list (option Q)) : list Q :=
  omap (fun x => Qabs <$> x) raw.

(** The "Get Force (Robust)" block. *)
Definition extract_force (res : element_results) : Q :=
  match res_N res with
  | N_none =>
      let n_min := get_or_zero (res_Nmin res) in
      let n_max := get_or_zero (res_Nmax res) in
      Qmax (Qabs n_min) (Qabs n_max)
  | N_list raw =>
      match valid_forces raw with
      | x :: l => py_max x l
      | [] => 0
      end
  | N_scalar x => Qabs x
  | N_absent => Qabs 0
  end.

(** ** One iteration *)

(** [[el for el in elements_metadata if el["active"]]], as references. *)
Fixpoint active_refs_from (k : nat) (md : list Member.t) : list nat :=
  match md with
  | [] => []
  | el :: rest =>
      if Member.active el then k :: active_refs_from (S k) rest
      else active_refs_from (S k) rest
  end.

Definition active_refs (md : list Member.t) : list nat :=
  active_refs_from 0 md.

(** [next((x for x in elements_metadata if x["id"] == m), None)] *)
Definition find_by_id (md : list Member.t) (m : nat)
    : option (nat * Member.t) :=
  list_find (fun x => Member.id x = m) md.

(** *** B. strain energy of the active elements *)

Record energy_acc : Type := mkAcc {
  acc_md : list Member.t;
  total_system_energy : Q;
  max_force_iter : Q
}.

Definition evaluate_member (results : nat -> element_results)
    (acc : energy_acc) (r : nat) : energy_acc :=
  match acc_md acc !! r with
  | Some el =>
      let force := extract_force (results (Member.id el)) in
      let energy := force ^ 2 * Member.length el in
      mkAcc (<[r := Member.set_strain_energy energy
                      (Member.set_force_val force el)]> (acc_md acc))
            (total_system_energy acc + energy)
            (if max_force_iter acc <? force then force
             else max_force_iter acc)
  | None => acc
  end.

Definition evaluate_energy (results : nat -> element_results)
    (md : list Member.t) (active_list : list nat) : energy_acc :=
  fold_left (evaluate_member results) active_list (mkAcc md 0 0).

(** *** C. symmetrization *)

Definition average_with_twin (md : list Member.t) (r : nat)
    : list Member.t :=
  match md !! r with
  | Some el =>
      match Member.mirror_id el with
      | Some m =>
          match find_by_id md m with
          | Some (j, twin) =>
              if Member.active twin then
                let avg_energy :=
                  (Member.strain_energy el + Member.strain_energy twin) / 2 in
                alter (Member.set_strain_energy avg_energy) j
                  (alter (Member.set_strain_energy avg_energy) r md)
              else md
          | None => md
          end
      | None => md
      end
  | None => md
  end.

Definition enforce_symmetry (md : list Member.t) (active_list : list nat)
    : list Member.t :=
  fold_left average_with_twin active_list md.

(** *** D. ranking and removal count *)

Definition energy_of (md : list Member.t) (r : nat) : Q :=
  match md !! r with
  | Some el => Member.strain_energy el
  | None => 0
  end.

(** [list.sort(key=...)] is stable; so is this insertion sort: a reference is
    placed before the first one whose key is not smaller. *)
Fixpoint insert_ref (md : list Member.t) (r : nat) (l : list nat)
    : list nat :=
  match l with
  | [] => [r]
  | s :: rest =>
      if energy_of md s <? energy_of md r then s :: insert_ref md r rest
      else r :: s :: rest
  end.

Definition sort_refs (md : list Member.t) (l : list nat) : list nat :=
  foldr (insert_ref md) [] l.

Definition safety_floor : nat := 15.

Definition count_to_remove (n_active : nat) (removal_ratio : Q) : nat :=
  let c := py_int (Qnat n_active * removal_ratio) in
  let c := if (c <? 1)%Z then 1%Z else c in
  let c := if (n_active <? safety_floor)%nat then 0%Z else c in
  Z.to_nat c.

(** *** E. soft kill *)

Definition attenuation : Q := 1 # 1000000.

Definition soft_kill (e : Element) : Element :=
  mkElement (EA e * attenuation) (EI e * attenuation).

(** [el = element_map[k]; el.EA = el.EA * 1e-6; el.EI = el.EI * 1e-6] *)
Definition soft_kill_element (em : list Element) (k : nat)
    : result (list Element) :=
  e ← of_option KeyError (lookup_element em k);
  Ok (<[pred k := soft_kill e]> em).

Definition kill_twin (st : list Member.t * list Element) (m : nat)
    : result (list Member.t * list Element) :=
  match find_by_id (fst st) m with
  | Some (j, twin) =>
      if Member.active twin then
        em ← soft_kill_element (snd st) (Member.id twin);
        Ok (alter (Member.set_active false) j (fst st), em)
      else Ok st
  | None => Ok st
  end.

(** Body of [for i in range(count_to_remove)]. *)
Definition kill_target (active_list : list nat)
    (st : list Member.t * list Element) (i : nat)
    : result (list Member.t * list Element) :=
  t ← of_option IndexError (active_list !! i);
  target_el ← of_option IndexError (fst st !! t);
  let md := alter (Member.set_active false) t (fst st) in
  em ← soft_kill_element (snd st) (Member.id target_el);
  match Member.mirror_id target_el with
  | Some (S m) => kill_twin (md, em) (S m)
  | Some O => Ok (md, em)
  | None => Ok (md, em)
  end.

Fixpoint kill_loop (active_list : list nat) (range : list nat)
    (st : list Member.t * list Element)
    : result (list Member.t * list Element) :=
  match range with
  | [] => Ok st
  | i :: rest =>
      st' ← kill_target active_list st i;
      kill_loop active_list rest st'
  end.

Definition soft_kill_weakest (active_list : list nat) (count : nat)
    (st : list Member.t * list Element)
    : result (list Member.t * list Element) :=
  kill_loop active_list (seq 0 count) st.

(** *** F. report *)

Record bar : Type := mkBar {
  bar_p1 : point;
  bar_p2 : point;
  bar_active : bool;
  bar_force : Q;
  bar_max_force : Q
}.

(** [el["force_val"]] on an active element: [KeyError] when never set. *)
Fixpoint max_active_force (md : list Member.t) (max_f_active : Q)
    : result Q :=
  match md with
  | [] => Ok max_f_active
  | el :: rest =>
      if Member.active el then
        f ← of_option KeyError (Member.force_val el);
        max_active_force rest (if max_f_active <? f then f else max_f_active)
      else max_active_force rest max_f_active
  end.

Definition display_of (max_f_active : Q) (el : Member.t) : bar :=
  mkBar (Member.p1 el) (Member.p2 el) (Member.active el)
        (default 0 (Member.force_val el)) max_f_active.

(** The line printed under "LOGGING". *)
Record log_line : Type := mkLog {
  log_iter : nat;
  log_active : nat;
  log_removed : nat;
  log_max_force : Q;
  log_total_energy : Q
}.

Record iteration_output : Type := mkOutput {
  display_data : list bar;
  active_count : Z;
  logged : log_line
}.

Section Iteration.

  (** [ss.solve()] raises or makes [get_element_results] available. *)
Variable solve : SystemElements -> result (nat -> element_results).

Definition run_iteration (o : TopologyOptimizer) (iteration_num : nat)
      (removal_ratio : Q) : result (TopologyOptimizer * iteration_output) :=
    results ← solve (ss o);
    let active_list := active_refs (elements_metadata o) in
    let acc := evaluate_energy results (elements_metadata o) active_list in
    let md := enforce_symmetry (acc_md acc) active_list in
    let active_list := sort_refs md active_list in
    let count := count_to_remove (length active_list) removal_ratio in
    '(md, em) ← soft_kill_weakest active_list count
                  (md, element_map (ss o));
    max_f_active ← max_active_force md 0;
    Ok (mkOptimizer (set_element_map em (ss o)) md
                    (load_node_id o) (E_active o),
        mkOutput (map (display_of max_f_active) md)
                 (Z.of_nat (length active_list) - Z.of_nat count)
                 (mkLog iteration_num (length active_list) count
                        (max_force_iter acc) (total_system_energy acc))).

End Iteration.

Definition default_section : section_params :=
  mkSection (150 # 1000) (300 # 1000) (8 # 1000) (12 # 1000).


(** ** OptimizationLoop: the driver in [ui.py] *)

(** The text of [lbl_status]. *)
Inductive status_text : Type :=
  | Status_ready
  | Status_initializing
  | Status_stopped
  | Status_iteration (iteration : nat) (active_count : Z)
  | Status_converged
  | Status_solver_error (e : exn).

Record TopologyApp : Type := mkApp {
  optimizer : TopologyOptimizer;
  is_running : bool;
  iteration : nat;
  lbl_status : status_text
}.

Definition convergence_floor : Z := 25.
Definition ui_removal_ratio : Q := 2 # 100.

Definition stop_optimization (app : TopologyApp) : TopologyApp :=
  mkApp (optimizer app) false (iteration app) Status_stopped.

Section Driver.

Variable solve : SystemElements -> result (nat -> element_results).

  (** [run_loop]; the boolean tells whether [root.after(200, self.run_loop)]
      was called.  Drawing is left out.  After an exception the run is over
      and the optimizer is only replaced by the next [initialize_structure],
      so its half-updated state is not kept. *)
Definition run_loop (app : TopologyApp) : TopologyApp * bool :=
    if negb (is_running app) then (app, false)
    else
      let iteration := S (iteration app) in
      match run_iteration solve (optimizer app) iteration ui_removal_ratio with
      | Ok (o, out) =>
          if (active_count out <? convergence_floor)%Z then
            (mkApp o false iteration Status_converged, false)
          else
            (mkApp o true iteration
                   (Status_iteration iteration (active_count out)), true)
      | Raise e =>
          (mkApp (optimizer app) false iteration (Status_solver_error e),
           false)
      end.

  (** The Tk event loop, as far as the optimizer sees it: before each timer
      callback the user may have pressed STOP ([stop_pressed], indexed by the
      number of iterations done so far). *)
Fixpoint mainloop (fuel : nat) (stop_pressed : nat -> bool)
      (app : TopologyApp) : TopologyApp :=
    match fuel with
    | O => app
    | S fuel' =>
        let app := if stop_pressed (iteration app)
                   then stop_optimization app else app in
        let '(app', again) := run_loop app in
        if again then mainloop fuel' stop_pressed app' else app'
    end.

  (** The optimizer after [k] further iterations, provided each of them
      succeeded and reported a count of at least 25. *)
Fixpoint keeps_running (k : nat) (o : TopologyOptimizer) (done : nat)
      : option TopologyOptimizer :=
    match k with
    | O => Some o
    | S k' =>
        match run_iteration solve o (S done) ui_removal_ratio with
        | Ok (o', out) =>
            if (active_count out <? convergence_floor)%Z then None
            else keeps_running k' o' (S done)
        | Raise _ => None
        end
    end.

End Driver.

(** ** Predicates used in the statements *)

(** Every element is related to every later one. *)
Fixpoint pairwise {A} (R : A -> A -> Prop) (l : list A) : Prop :=
  match l with
  | [] => True
  | x :: t => Forall (R x) t /\ pairwise R t
  end.

Definition same_point (p q : point) : Prop :=
  fst p == fst q /\ snd p == snd q.

(** Two bars with the same unordered pair of end points. *)
Definition same_bar (a b : point * point) : Prop :=
  (same_point (fst a) (fst b) /\ same_point (snd a) (snd b)) \/
  (same_point (fst a) (snd b) /\ same_point (snd a) (fst b)).

Definition distinct_points (l : list point) : Prop :=
  pairwise (fun p q => ~ same_point p q) l.

Fixpoint distinct_pointsb (l : list point) : bool :=
  match l with
  | [] => true
  | p :: t => forallb (fun q => negb (point_eqb p q)) t && distinct_pointsb t
  end.

Definition endpoints (el : Member.t) : point * point :=
  (Member.p1 el, Member.p2 el).

(** What the builder guarantees of each member it appends. *)
Definition well_built (hypot : Q -> Q -> Q) (max_dist : Q) (el : Member.t)
    : Prop :=
  el = new_member hypot (Member.id el) (endpoints el) /\
  qualifies hypot max_dist (endpoints el) = true.

(** The members appended for a list of node pairs when [k] elements exist
    already: the loop over the pairs, without the solver calls. *)
Fixpoint members_from (hypot : Q -> Q -> Q) (max_dist : Q) (k : nat)
    (pairs : list (point * point)) : list Member.t :=
  match pairs with
  | [] => []
  | pq :: rest =>
      if qualifies hypot max_dist pq then
        new_member hypot (S k) pq :: members_from hypot max_dist (S k) rest
      else members_from hypot max_dist k rest
  end.

(** A call returns normally with a value satisfying [P]. *)
Definition returns {A} (r : result A) (P : A -> Prop) : Prop :=
  match r with
  | Ok a => P a
  | Raise _ => False
  end.


(** The metadata after steps B and C of [run_iteration], and the sorted
    [active_list] of step D. *)
Definition symmetrized (results : nat -> element_results)
    (md : list Member.t) : list Member.t :=
  enforce_symmetry
    (acc_md (evaluate_energy results md (active_refs md))) (active_refs md).

Definition ranked (results : nat -> element_results) (md : list Member.t)
    : list nat :=
  sort_refs (symmetrized results md) (active_refs md).

(** Steps B and C write [strain_energy] and [force_val] only. *)
Definition re_evaluated (el el' : Member.t) : Prop :=
  Member.id el' = Member.id el /\
  Member.p1 el' = Member.p1 el /\ Member.p2 el' = Member.p2 el /\
  Member.mid_x el' = Member.mid_x el /\ Member.mid_y el' = Member.mid_y el /\
  Member.length el' = Member.length el /\
  Member.active el' = Member.active el /\
  Member.mirror_id el' = Member.mirror_id el.

(** The force values the solver reported for a member. *)
Definition reported_values (res : element_results) : list Q :=
  match res_N res with
  | N_scalar x => [x]
  | N_list raw => omap id raw
  | N_none => omap mjoin [res_Nmin res; res_Nmax res]
  | N_absent => []
  end.

(** The force the spec asks for: the largest absolute value among the
    reported ones, and zero when nothing is reported. *)
Definition force_spec (res : element_results) (force : Q) : Prop :=
  match reported_values res with
  | [] => force == 0
  | vs => (exists v, In v vs /\ force == Qabs v) /\
          (forall v, In v vs -> Qabs v <= force)
  end.

(** What [run_iteration] as a whole may do to a member: the geometry, the id
    and the mirror id stay, and the [active] flag is at most cleared. *)
Definition kept (el el' : Member.t) : Prop :=
  Member.id el' = Member.id el /\
  Member.p1 el' = Member.p1 el /\ Member.p2 el' = Member.p2 el /\
  Member.mid_x el' = Member.mid_x el /\ Member.mid_y el' = Member.mid_y el /\
  Member.length el' = Member.length el /\
  Member.mirror_id el' = Member.mirror_id el /\
  (Member.active el' = true -> Member.active el = true).

(** A removal touches nothing but the [active] flag, and only clears it. *)
Definition deactivated (el el' : Member.t) : Prop :=
  el' = el \/ el' = Member.set_active false el.

(** An element's stiffness after [k] soft kills. *)
Definition attenuated (e e' : Element) : Prop :=
  exists k : nat, e' = Nat.iter k soft_kill e.

(** What one pruning pass may do to the metadata and the element map. *)
Definition pruned (st st' : list Member.t * list Element) : Prop :=
  Forall2 deactivated (fst st) (fst st') /\
  Forall2 attenuated (snd st) (snd st') /\
  forall j el el' e,
    fst st !! j = Some el -> fst st' !! j = Some el' ->
    Member.active el = true -> Member.active el' = false ->
    lookup_element (snd st) (Member.id el) = Some e ->
    exists k, lookup_element (snd st') (Member.id el)
              = Some (Nat.iter (S k) soft_kill e).

(** ** Concrete runs *)

Definition degenerate_section : section_params :=
  mkSection (150 # 1000) (300 # 1000) (8 # 1000) (150 # 1000).

(** Solver results with the constant axial force [weak] for the elements
    listed in [ids] and [other] for the rest. *)
Definition two_level_results (ids : list nat) (weak other : Q) (k : nat)
    : element_results :=
  mkResults (N_scalar (if existsb (Nat.eqb k) ids then weak else other))
            None None.

Definition two_level_solver (ids : list nat) (weak other : Q)
    (_ : SystemElements) : result (nat -> element_results) :=
  Ok (two_level_results ids weak other).

(** A two-member structure: a left bar and its mirror. *)
Definition toy_member (k : nat) (x : Q) (mirror : option nat) : Member.t :=
  Member.mk k (x, 0) (x, 1) x (1 # 2) 1 true 0 mirror None.

Definition toy_metadata : list Member.t :=
  [toy_member 1 0 (Some 2%nat); toy_member 2 4 None].

Definition toy_elements : list Element := [mkElement 1 1; mkElement 1 1].

Definition toy_optimizer : TopologyOptimizer :=
  mkOptimizer (mkSystem 1 1 toy_elements [] [] []) toy_metadata None 1.

Definition toy_app : TopologyApp :=
  mkApp toy_optimizer true 0 Status_initializing.

Definition default_structure : result TopologyOptimizer :=
  initialize_structure hypot9 16 5 800000 "Pinned-Roller" 200 default_section.

(** ** Invariants of the optimizer state *)

(** Members are numbered 1, 2, ... in list order, and the solver holds one
    element per member. *)
Definition well_formed (o : TopologyOptimizer) : Prop :=
  Member.id <$> elements_metadata o = seq 1 (length (elements_metadata o)) /\
  length (element_map (ss o)) = length (elements_metadata o).

(** Step C writes [strain_energy] only. *)
Definition energy_only (el el' : Member.t) : Prop :=
  el' = Member.set_strain_energy (Member.strain_energy el') el.

(** Every member's id is a key of the element map. *)
Definition ids_valid (st : list Member.t * list Element) : Prop :=
  forall el, In el (fst st) ->
    is_Some (lookup_element (snd st) (Member.id el)).

(** Every active member has a [force_val]. *)
Definition forces_known (md : list Member.t) : Prop :=
  Forall (fun el => Member.active el = true -> is_Some (Member.force_val el))
         md.

(** ** Drawing of a bar in [run_loop] *)

Definition bar_intensity (b : bar) : Q :=
  let max_f := if 0 <? bar_max_force b then bar_max_force b else 1 in
  bar_force b / max_f.

Definition bar_alpha (b : bar) : Q := (5 # 10) + (5 # 10) * bar_intensity b.

Definition bar_linewidth (b : bar) : Q := 1 + 3 * bar_intensity b.

(** The distance [get_nid] compares. *)
Definition node_distance (hypot : Q -> Q -> Q) (x y : Q) (n : point) : Q :=
  hypot (fst n - x) (snd n - y).

(** ** Quantities of the report *)

Definition Qsum (l : list Q) : Q := fold_right Qplus 0 l.

(** The energy step B assigns to a member. *)
Definition member_energy (results : nat -> element_results) (el : Member.t)
    : Q :=
  extract_force (results (Member.id el)) ^ 2 * Member.length el.

(** Every active member has a [force_val] satisfying [P]. *)
Definition active_forces (P : Q -> Prop) (md : list Member.t) : Prop :=
  Forall (fun el => Member.active el = true ->
                    exists f, Member.force_val el = Some f /\ P f) md.

(** A solver that always fails. *)
Definition failing_solver (_ : SystemElements)
    : result (nat -> element_results) :=
  Raise SolverError.

(** ** Tactics for running the model on concrete inputs *)

Ltac exists_run s o n r :=
  let v := eval vm_compute in (run_iteration s o n r) in
  match v with
  | Ok (?o', ?out) => exists o', out
  end.

Ltac exists_default :=
  let v := eval vm_compute in default_structure in
  match v with
  | Ok ?o => exists o
  end.

Ltac exists_default_run s n r :=
  let v := eval vm_compute in default_structure in
  match v with
  | Ok ?o =>
      let w := eval vm_compute in (run_iteration s o n r) in
      match w with
      | Ok (?o', ?out) => exists o, o', out
      end
  end.

Ltac by_running :=
  match goal with
  | |- run_iteration ?s ?o ?n ?r = Ok (?o', ?out) /\ _ =>
      let Hrun := fresh "Hrun" in
      assert (Hrun : run_iteration s o n r = Ok (o', out))
        by (vm_compute; reflexivity);
      split; [exact Hrun|]
  end.

(** ** Comparing two outcomes *)

(** Two solver models with the same nodes, supports and loads and the same
    number of elements. *)
Definition same_mesh (s s' : SystemElements) : Prop :=
  node_map s' = node_map s /\ supports s' = supports s /\
  loads s' = loads s /\
  length (element_map s') = length (element_map s).

(** Two calls that raise the same exception, or return values related by
    [R]. *)
Definition same_outcome {A} (R : A -> A -> Prop) (r r' : result A) : Prop :=
  match r, r' with
  | Ok a, Ok a' => R a a'
  | Raise e, Raise e' => e' = e
  | _, _ => False
  end.

(** The 16 x 30 domain: the rows are too far apart to be joined, so the mesh
    has 32 horizontal bars, 16 of them with a mirror. *)
Definition tall_structure : result TopologyOptimizer :=
  initialize_structure hypot9 16 30 800000 "Pinned-Roller" 200 default_section.

(** The application as [start_optimization] leaves it before the first call of
    [run_loop]. *)
Definition started (o : TopologyOptimizer) : TopologyApp :=
  mkApp o true 0 Status_initializing.

(** * Proofs *)

(** ** The exception monad *)

Lemma bind_Ok {A B} (r : result A) (k : A -> result B) (b : B) :
  (r ≫= k) = Ok b -> exists a, r = Ok a /\ k a = Ok b.
Proof. destruct r as [a|e]; [|done]. intros H. by exists a. Qed.

Lemma of_option_Ok {A} (e : exn) (o : option A) (a : A) :
  of_option e o = Ok a -> o = Some a.
Proof. destruct o; [|done]. by intros [= ->]. Qed.

Lemma bind_Ok_l {A B} (a : A) (k : A -> result B) : (Ok a ≫= k) = k a.
Proof. reflexivity. Qed.

(** ** Comparisons *)

Lemma Qltb_lt (a b : Q) : (a <? b) = true <-> a < b.
Proof.
  unfold Qltb. rewrite negb_true_iff, <- not_true_iff_false, Qle_bool_iff.
  split; [apply Qnot_le_lt | apply Qlt_not_le].
Qed.

Lemma Qltb_ge (a b : Q) : (a <? b) = false <-> b <= a.
Proof.
  unfold Qltb. rewrite negb_false_iff. apply Qle_bool_iff.
Qed.

Lemma Qmax_ub_l (a b : Q) : a <= Qmax a b.
Proof.
  unfold Qmax. destruct (a <? b) eqn:H.
  - apply Qltb_lt in H. lra.
  - lra.
Qed.

Lemma Qmax_ub_r (a b : Q) : b <= Qmax a b.
Proof.
  unfold Qmax. destruct (a <? b) eqn:H.
  - lra.
  - apply Qltb_ge in H. lra.
Qed.

Lemma Qmax_cases (a b : Q) : Qmax a b = a \/ Qmax a b = b.
Proof. unfold Qmax. destruct (a <? b); auto. Qed.

(** ** Lists of pairwise related elements *)

Section Pairwise.
Context {A B : Type}.

Lemma pairwise_app (R : A -> A -> Prop) (l1 l2 : list A) :
    pairwise R (l1 ++ l2) <->
    pairwise R l1 /\ pairwise R l2 /\
    (forall x y, In x l1 -> In y l2 -> R x y).
  Proof.
    induction l1 as [|a l1 IH]; simpl.
    - intuition.
    - rewrite Forall_app, IH, !List.Forall_forall. split.
      + intros [[H1 H2] (H3 & H4 & H5)]. repeat split; auto.
        intros x y [<-|Hx] Hy; auto.
      + intros ([H1 H2] & H3 & H4). repeat split; auto.
  Qed.

Lemma pairwise_filter (R : A -> A -> Prop) (f : A -> bool) (l : list A) :
    pairwise R l -> pairwise R (List.filter f l).
  Proof.
    induction l as [|a l IH]; simpl; [done|].
    intros [H1 H2]. destruct (f a); simpl; auto.
    split; auto. rewrite List.Forall_forall in *.
    intros x Hx. apply filter_In in Hx. apply H1, Hx.
  Qed.

Lemma pairwise_fmap (R : B -> B -> Prop) (g : A -> B) (l : list A) :
    pairwise R (g <$> l) <-> pairwise (fun x y => R (g x) (g y)) l.
  Proof.
    induction l as [|a l IH]; simpl; [done|].
    rewrite IH, Forall_fmap. done.
  Qed.

Lemma pairwise_lookup (R : A -> A -> Prop) (l : list A) i j x y :
    pairwise R l -> (i < j)%nat ->
    l !! i = Some x -> l !! j = Some y -> R x y.
  Proof.
    revert i j. induction l as [|a l IH]; intros i j Hp Hij Hi Hj; [done|].
    destruct Hp as [H1 H2]. destruct j as [|j]; [lia|]. simpl in Hj.
    destruct i as [|i]; simpl in Hi.
    - injection Hi as <-. rewrite List.Forall_forall in H1.
      apply H1. apply list_elem_of_In. by eapply list_elem_of_lookup_2.
    - eapply (IH i j); eauto. lia.
  Qed.
End Pairwise.

Lemma in_combinations2 {A} (l : list A) (a b : A) :
  In (a, b) (combinations2 l) -> In a l /\ In b l.
Proof.
  induction l as [|x t IH]; simpl; [done|].
  rewrite in_app_iff, in_map_iff. intros [(y & [= <- <-] & Hy)|H]; auto.
  apply IH in H. tauto.
Qed.

Lemma combinations2_distinct (l : list point) :
  distinct_points l ->
  pairwise (fun a b => ~ same_bar a b) (combinations2 l).
Proof.
  unfold distinct_points.
  induction l as [|x t IH]; simpl; [done|].
  intros [Hx Ht]. rewrite List.Forall_forall in Hx.
  apply pairwise_app. split; [|split; [auto|]].
  - change (map (pair x) t) with (pair x <$> t). apply pairwise_fmap.
    clear IH. induction t as [|a t IH]; simpl; [done|].
    destruct Ht as [Ha Ht]. split.
    + rewrite List.Forall_forall in *. intros b Hb [[_ Hab]|[Hxb _]]; simpl in *.
      * by apply (Ha b).
      * apply (Hx b); [by right | done].
    + apply IH; [|done]. intros b Hb. apply Hx. by right.
  - intros a [c d] Ha Hcd. apply in_map_iff in Ha as (y & <- & Hy).
    apply in_combinations2 in Hcd as [Hc Hd].
    intros [[Hxc _]|[Hxd _]]; simpl in *.
    + by apply (Hx c).
    + by apply (Hx d).
Qed.

Lemma point_eqb_same (p q : point) : point_eqb p q = true <-> same_point p q.
Proof.
  unfold point_eqb, same_point. rewrite andb_true_iff, !Qeq_bool_iff. done.
Qed.

Lemma distinct_pointsb_correct (l : list point) :
  distinct_pointsb l = true -> distinct_points l.
Proof.
  unfold distinct_points. induction l as [|p t IH]; simpl; [done|].
  rewrite andb_true_iff, forallb_forall, List.Forall_forall.
  intros [H1 H2]. split; [|auto].
  intros q Hq Hs. apply point_eqb_same in Hs.
  specialize (H1 q Hq). rewrite Hs in H1. done.
Qed.

Lemma same_bar_sym (a b : point * point) : same_bar a b -> same_bar b a.
Proof.
  unfold same_bar, same_point.
  intros [[[? ?] [? ?]]|[[? ?] [? ?]]]; [left|right]; repeat split;
    by symmetry.
Qed.

(** ** GroundStructureBuilder *)

Section Builder.
Variable hypot : Q -> Q -> Q.

Lemma new_member_endpoints k pq : endpoints (new_member hypot k pq) = pq.
  Proof. by destruct pq as [[??] [??]]. Qed.

Lemma new_member_id k pq : Member.id (new_member hypot k pq) = k.
  Proof. by destruct pq as [[??] [??]]. Qed.

Lemma connect_eq max_dist st pq :
    connect hypot max_dist st pq
    = if qualifies hypot max_dist pq then
        (add_element (fst st) (fst pq) (snd pq),
         snd st ++ [new_member hypot (S (length (element_map (fst st)))) pq])
      else st.
  Proof.
    unfold connect. destruct (qualifies hypot max_dist pq); [|done].
    simpl. rewrite length_app. simpl. by rewrite Nat.add_1_r.
  Qed.

Lemma connect_fold max_dist pairs ss0 md0 :
    exists new,
      snd (fold_left (connect hypot max_dist) pairs (ss0, md0)) = md0 ++ new /\
      endpoints <$> new = List.filter (qualifies hypot max_dist) pairs /\
      Member.id <$> new = seq (S (length (element_map ss0))) (length new) /\
      length (element_map
                (fst (fold_left (connect hypot max_dist) pairs (ss0, md0))))
        = (length (element_map ss0) + length new)%nat /\
      Forall (well_built hypot max_dist) new.
  Proof.
    revert ss0 md0. induction pairs as [|pq pairs IH]; intros ss0 md0; simpl.
    - exists []. rewrite app_nil_r. repeat split; auto.
    - rewrite connect_eq. destruct (qualifies hypot max_dist pq) eqn:Hq.
      + simpl.
        destruct (IH (add_element ss0 (fst pq) (snd pq))
                     (md0 ++ [new_member hypot (S (length (element_map ss0))) pq]))
          as (new & H1 & H2 & H3 & H4 & H5).
        assert (Hlen : length (element_map (add_element ss0 (fst pq) (snd pq)))
                       = S (length (element_map ss0))).
        { simpl. rewrite length_app. simpl. lia. }
        rewrite Hlen in *.
        exists (new_member hypot (S (length (element_map ss0))) pq :: new).
        split; [by rewrite H1, <- app_assoc|].
        split; [by rewrite fmap_cons, new_member_endpoints, H2|].
        split; [by rewrite fmap_cons, new_member_id, H3|].
        split; [rewrite H4; simpl; lia|].
        constructor; [|done].
        split; [by rewrite new_member_id, new_member_endpoints|].
        by rewrite new_member_endpoints.
      + apply IH.
  Qed.

Lemma build_ground_structure_spec ea ei span height :
    let md := snd (build_ground_structure hypot (new_system ea ei) span height) in
    endpoints <$> md
      = List.filter (qualifies hypot (max_connection_distance span))
                    (combinations2 (grid_nodes span height)) /\
    Member.id <$> md = seq 1 (length md) /\
    Forall (well_built hypot (max_connection_distance span)) md.
  Proof.
    unfold build_ground_structure.
    destruct (connect_fold (max_connection_distance span)
                (combinations2 (grid_nodes span height)) (new_system ea ei) [])
      as (new & H1 & H2 & H3 & _ & H5).
    cbv zeta. rewrite H1.
    change (element_map (new_system ea ei)) with (@nil Element) in H3.
    rewrite app_nil_l. auto.
  Qed.

Lemma qualifies_bounds max_dist pq :
    qualifies hypot max_dist pq = true <->
    eps < pair_dist hypot pq /\ pair_dist hypot pq <= max_dist.
  Proof.
    unfold qualifies. by rewrite andb_true_iff, Qltb_lt, Qle_bool_iff.
  Qed.

Lemma well_built_length max_dist el :
    well_built hypot max_dist el ->
    Member.length el = pair_dist hypot (endpoints el).
  Proof.
    intros [-> _]. rewrite new_member_endpoints.
    by destruct (endpoints el) as [[??] [??]].
  Qed.

End Builder.

(** X22.  For grid parameters whose rounded grid nodes are pairwise distinct,
    the ground structure holds exactly one member per pair of grid nodes whose
    distance is above [eps] and at most [max_connection_distance]: the end
    point pairs of the members are the qualifying node pairs, in order; no two
    members join the same unordered pair of points; and every stored length is
    the distance of the end points, above [eps] and at most the cutoff. *)
Theorem distinct_nodes_give_unique_members (hypot : Q -> Q -> Q)
    (span height ea ei : Q) :
  distinct_points (grid_nodes span height) ->
  let md := snd (build_ground_structure hypot (new_system ea ei) span height) in
  let max_dist := max_connection_distance span in
  endpoints <$> md
    = List.filter (qualifies hypot max_dist)
                  (combinations2 (grid_nodes span height)) /\
  (forall i j a b,
     md !! i = Some a -> md !! j = Some b ->
     same_bar (endpoints a) (endpoints b) -> i = j) /\
  (forall el, In el md ->
     Member.length el = pair_dist hypot (endpoints el) /\
     eps < Member.length el /\ Member.length el <= max_dist).
Proof.
  intros Hnodes md max_dist.
  destruct (build_ground_structure_spec hypot ea ei span height)
    as (Hend & _ & Hwb).
  fold md max_dist in Hend, Hwb.
  split; [done|]. split.
  - assert (Hpw : pairwise (fun a b => ~ same_bar (endpoints a) (endpoints b)) md).
    { apply (pairwise_fmap (fun a b => ~ same_bar a b) endpoints). rewrite Hend.
      by apply pairwise_filter, combinations2_distinct. }
    intros i j a b Hi Hj Hsame.
    destruct (Nat.lt_total i j) as [Hlt|[Heq|Hlt]]; [|done|].
    + by destruct (pairwise_lookup _ _ _ _ _ _ Hpw Hlt Hi Hj).
    + apply same_bar_sym in Hsame.
      by destruct (pairwise_lookup _ _ _ _ _ _ Hpw Hlt Hj Hi).
  - intros el Hel. rewrite List.Forall_forall in Hwb.
    specialize (Hwb el Hel).
    rewrite (well_built_length _ _ _ Hwb).
    destruct Hwb as [_ Hq]. apply qualifies_bounds in Hq. tauto.
Qed.

Lemma distinct_nodes_give_unique_members_witness :
  distinct_points (grid_nodes 16 5) /\
  length (snd (build_ground_structure hypot9 (new_system 1 1) 16 5)) = 107%nat /\
  forall i j a b,
    snd (build_ground_structure hypot9 (new_system 1 1) 16 5) !! i = Some a ->
    snd (build_ground_structure hypot9 (new_system 1 1) 16 5) !! j = Some b ->
    same_bar (endpoints a) (endpoints b) -> i = j.
Proof.
  split; [apply distinct_pointsb_correct; vm_compute; reflexivity|].
  split; [vm_compute; reflexivity|].
  apply (distinct_nodes_give_unique_members hypot9 16 5 1 1).
  apply distinct_pointsb_correct. vm_compute. reflexivity.
Defined.


(** C8.  At span 16 and height 0.002 the rounded rows of the grid collide
    ([round(j * dy, 3)] is 0, 0.001, 0.001, 0.002), the node list holds the
    point (2, 0.001) twice, and [initialize_structure] joins (0, 0) to it
    twice: the third and the fourth member have the same end points.  The set
    [added_connections] of the source is never consulted. *)
Lemma C8_colliding_nodes_duplicate_bars :
  returns (initialize_structure hypot9 16 (2 # 1000) 800000 "Pinned-Roller"
             200 default_section)
    (fun o =>
       exists a b,
         elements_metadata o !! 2%nat = Some a /\
         elements_metadata o !! 3%nat = Some b /\
         endpoints a
         = ((round3 0, round3 0), (round3 2, round3 (1 # 1000))) /\
         same_bar (endpoints a) (endpoints b)).
Proof.
  let v := eval vm_compute in
    (initialize_structure hypot9 16 (2 # 1000) 800000 "Pinned-Roller" 200
       default_section) in
  match v with
  | Ok ?o =>
      assert (H : initialize_structure hypot9 16 (2 # 1000) 800000
                    "Pinned-Roller" 200 default_section = Ok o)
        by (vm_compute; reflexivity);
      rewrite H
  end.
  cbn [returns]. eexists _, _. split; [vm_compute; reflexivity|].
  split; [vm_compute; reflexivity|]. split; [vm_compute; reflexivity|].
  left. split; split; reflexivity.
Qed.

(** ** SymmetryMapper *)

Section Symmetry.
Variable hypot : Q -> Q -> Q.

Lemma find_twin_Some center_line tx ty l m :
  find_twin hypot center_line tx ty l = Some m ->
  exists k potential,
    l !! k = Some potential /\ Member.id potential = m /\
    center_line < Member.mid_x potential /\
    hypot (Member.mid_x potential - tx) (Member.mid_y potential - ty)
      < tolerance.
Proof.
  induction l as [|p rest IH]; simpl; [done|].
  destruct (center_line <? Member.mid_x p) eqn:Hc.
  - destruct (hypot _ _ <? tolerance) eqn:He.
    + intros [= <-]. exists 0%nat, p. apply Qltb_lt in Hc, He. auto.
    + intros H. destruct (IH H) as (k & q & ?). exists (S k), q. done.
  - intros H. destruct (IH H) as (k & q & ?). exists (S k), q. done.
Qed.

Lemma assign_mirror_id span all el :
  Member.id (assign_mirror hypot span all el) = Member.id el.
Proof. unfold assign_mirror. by destruct (_ <? _). Qed.

Lemma assign_mirror_mid span all el :
  Member.mid_x (assign_mirror hypot span all el) = Member.mid_x el /\
  Member.mid_y (assign_mirror hypot span all el) = Member.mid_y el.
Proof. unfold assign_mirror. by destruct (_ <? _). Qed.

Lemma map_symmetry_ids span md :
  Member.id <$> map_symmetry hypot span md = Member.id <$> md.
Proof.
  unfold map_symmetry. change map with (@fmap list _) at 1.
  rewrite <- list_fmap_compose. apply list_fmap_ext.
  intros i x _. apply assign_mirror_id.
Qed.

End Symmetry.

Lemma find_by_id_unique (md : list Member.t) k x :
  NoDup (Member.id <$> md) -> md !! k = Some x ->
  find_by_id md (Member.id x) = Some (k, x).
Proof.
  intros Hnd Hk. apply list_find_Some. split; [done|]. split; [done|].
  intros j y Hj Hlt Hid.
  assert (j = k); [|lia].
  eapply (NoDup_lookup _ _ _ _ Hnd); rewrite list_lookup_fmap.
  - by rewrite Hj.
  - rewrite Hk. simpl. by rewrite Hid.
Qed.

(** ** initialize_structure *)

Section Initialize.
Variable hypot : Q -> Q -> Q.

Lemma connect_fold_members max_dist pairs ss0 md0 :
  snd (fold_left (connect hypot max_dist) pairs (ss0, md0))
  = md0 ++ members_from hypot max_dist (length (element_map ss0)) pairs.
Proof.
  revert ss0 md0. induction pairs as [|pq pairs IH]; intros ss0 md0; simpl.
  - by rewrite app_nil_r.
  - rewrite connect_eq. destruct (qualifies hypot max_dist pq).
    + rewrite IH. cbn [fst snd add_element element_map].
      rewrite length_app, Nat.add_1_r, <- app_assoc. done.
    + apply IH.
Qed.

Lemma connect_fold_supports max_dist pairs st :
  supports (fst (fold_left (connect hypot max_dist) pairs st))
  = supports (fst st).
Proof.
  revert st. induction pairs as [|pq pairs IH]; intros st; simpl; [done|].
  rewrite IH, connect_eq. by destruct (qualifies hypot max_dist pq).
Qed.

Lemma build_metadata_any_section ea ei span height :
  snd (build_ground_structure hypot (new_system ea ei) span height)
  = members_from hypot (max_connection_distance span) 0
      (combinations2 (grid_nodes span height)).
Proof. unfold build_ground_structure. by rewrite connect_fold_members. Qed.

End Initialize.

(** *** Supports and load *)

Lemma add_support_Ok (k : support_kind) (nid : option nat)
    (ss0 ss' : SystemElements) :
  add_support k nid ss0 = Ok ss' ->
  is_Some nid /\
  sys_EA ss' = sys_EA ss0 /\ sys_EI ss' = sys_EI ss0 /\
  element_map ss' = element_map ss0 /\ node_map ss' = node_map ss0 /\
  loads ss' = loads ss0 /\ supports ss' = supports ss0 ++ [(k, nid)].
Proof.
  unfold add_support. destruct nid as [n|]; [|done]. intros [= <-].
  split; [by eexists|done].
Qed.

Lemma point_load_Ok (nid : option nat) (fy : Q) (ss0 ss' : SystemElements) :
  point_load nid fy ss0 = Ok ss' ->
  is_Some nid /\
  element_map ss' = element_map ss0 /\ node_map ss' = node_map ss0 /\
  supports ss' = supports ss0 /\ loads ss' = loads ss0 ++ [(nid, fy)].
Proof.
  unfold point_load. destruct nid as [n|]; [|done]. intros [= <-].
  split; [by eexists|done].
Qed.

Lemma add_support_twice (k1 k2 : support_kind) (id_L id_R : option nat)
    (ss0 ss' : SystemElements) :
  add_support k1 id_L ss0 ≫= add_support k2 id_R = Ok ss' ->
  element_map ss' = element_map ss0 /\ node_map ss' = node_map ss0 /\
  loads ss' = loads ss0 /\
  supports ss' = supports ss0 ++ [(k1, id_L); (k2, id_R)].
Proof.
  intros H. apply bind_Ok in H as (s1 & H1 & H2).
  apply add_support_Ok in H1 as (_ & _ & _ & He1 & Hn1 & Hl1 & Hs1).
  apply add_support_Ok in H2 as (_ & _ & _ & He2 & Hn2 & Hl2 & Hs2).
  rewrite He2, Hn2, Hl2, Hs2, He1, Hn1, Hl1, Hs1, <- app_assoc. done.
Qed.

Lemma apply_supports_Ok (support_type : string) (id_L id_R : option nat)
    (ss0 ss' : SystemElements) :
  apply_supports support_type id_L id_R ss0 = Ok ss' ->
  element_map ss' = element_map ss0 /\ node_map ss' = node_map ss0 /\
  loads ss' = loads ss0 /\
  supports ss'
  = supports ss0 ++
    (if String.eqb support_type "Pinned-Roller"
     then [(Hinged, id_L); (Roll, id_R)]
     else if String.eqb support_type "Fixed-Fixed"
     then [(Fixed, id_L); (Fixed, id_R)]
     else if String.eqb support_type "Pinned-Pinned"
     then [(Hinged, id_L); (Hinged, id_R)]
     else []).
Proof.
  unfold apply_supports.
  destruct (String.eqb support_type "Pinned-Roller");
    [apply add_support_twice|].
  destruct (String.eqb support_type "Fixed-Fixed");
    [apply add_support_twice|].
  destruct (String.eqb support_type "Pinned-Pinned");
    [apply add_support_twice|].
  intros [= <-]. by rewrite app_nil_r.
Qed.

Lemma apply_supports_elements (support_type : string)
    (id_L id_R : option nat) (ss0 ss' : SystemElements) :
  apply_supports support_type id_L id_R ss0 = Ok ss' ->
  element_map ss' = element_map ss0.
Proof. intros H. by apply apply_supports_Ok in H as (? & _). Qed.

(** [get_nid] finds a node as soon as there is one. *)
Lemma get_nid_from_is_Some (hypot : Q -> Q -> Q) (x y : Q)
    (nodes : list point) (nid : nat) (best : option nat) (md : option Q) :
  (is_Some md -> is_Some best) ->
  is_Some best \/ nodes <> [] ->
  is_Some (get_nid_from hypot x y nodes nid best md).
Proof.
  revert nid best md.
  induction nodes as [|n rest IH]; intros nid best md Hc Hs.
  - simpl. by destruct Hs.
  - cbn [get_nid_from]. cbv zeta.
    destruct md as [m|].
    + destruct (hypot (fst n - x) (snd n - y) <? m).
      * apply IH; [intros _|left]; by eexists.
      * apply IH; [done|]. left. apply Hc. by eexists.
    + apply IH; [intros _|left]; by eexists.
Qed.

Lemma get_nid_is_Some (hypot : Q -> Q -> Q) (ss0 : SystemElements) (x y : Q) :
  node_map ss0 <> [] -> is_Some (get_nid hypot ss0 x y).
Proof.
  intros H. unfold get_nid. apply get_nid_from_is_Some; [|by right].
  intros [? [=]].
Qed.

Lemma get_nid_no_node (hypot : Q -> Q -> Q) (ss0 : SystemElements) (x y : Q) :
  node_map ss0 = [] -> get_nid hypot ss0 x y = None.
Proof. unfold get_nid. by intros ->. Qed.

Lemma add_node_nonempty (p : point) (nodes : list point) :
  add_node p nodes <> [].
Proof.
  unfold add_node. destruct nodes as [|n l]; [done|].
  by destruct (existsb _ _).
Qed.

(** The solver has a node exactly when some pair of grid nodes was joined. *)
Lemma connect_fold_nodes (hypot : Q -> Q -> Q) (max_dist : Q)
    (pairs : list (point * point)) (st : SystemElements * list Member.t) :
  node_map (fst (fold_left (connect hypot max_dist) pairs st)) = [] <->
  node_map (fst st) = [] /\ existsb (qualifies hypot max_dist) pairs = false.
Proof.
  revert st. induction pairs as [|pq pairs IH]; intros st.
  - simpl. tauto.
  - cbn [fold_left existsb]. rewrite IH, connect_eq.
    destruct (qualifies hypot max_dist pq); cbn [orb].
    + split; [|by intros [_ ?]]. intros [H _]. cbn in H.
      by apply add_node_nonempty in H.
    + tauto.
Qed.

Lemma build_ground_structure_nodes (hypot : Q -> Q -> Q)
    (ea ei span height : Q) :
  node_map (fst (build_ground_structure hypot (new_system ea ei) span height))
  = [] <->
  existsb (qualifies hypot (max_connection_distance span))
          (combinations2 (grid_nodes span height)) = false.
Proof.
  unfold build_ground_structure.
  generalize (combinations2 (grid_nodes span height))
             (max_connection_distance span).
  intros pairs max_dist. rewrite connect_fold_nodes. cbn. tauto.
Qed.

Lemma build_ground_structure_supports (hypot : Q -> Q -> Q)
    (ea ei span height : Q) :
  supports (fst (build_ground_structure hypot (new_system ea ei) span height))
  = [].
Proof. unfold build_ground_structure. by rewrite connect_fold_supports. Qed.

(** *** The steps of [initialize_structure] *)

Lemma initialize_structure_inv (hypot : Q -> Q -> Q)
    (span height load_kn E_GPa : Q) (support_type : string)
    (sp : section_params) (o : TopologyOptimizer) :
  initialize_structure hypot span height load_kn support_type E_GPa sp
    = Ok o ->
  exists ea ei ss2,
    ea = E_GPa * inject_Z (10 ^ 9)
         * fst (calculate_i_section_properties
                  (sec_B sp) (sec_D sp) (sec_tw sp) (sec_tf sp)) /\
    ei = E_GPa * inject_Z (10 ^ 9)
         * snd (calculate_i_section_properties
                  (sec_B sp) (sec_D sp) (sec_tw sp) (sec_tf sp)) /\
    apply_supports support_type
      (get_nid hypot
         (fst (build_ground_structure hypot (new_system ea ei) span height))
         0 0)
      (get_nid hypot
         (fst (build_ground_structure hypot (new_system ea ei) span height))
         span 0)
      (fst (build_ground_structure hypot (new_system ea ei) span height))
    = Ok ss2 /\
    point_load (get_nid hypot ss2 (span / 2) height) (- load_kn) ss2
    = Ok (ss o) /\
    elements_metadata o
    = map_symmetry hypot span
        (snd (build_ground_structure hypot (new_system ea ei) span height)) /\
    load_node_id o = get_nid hypot ss2 (span / 2) height /\
    E_active o = E_GPa * inject_Z (10 ^ 9).
Proof.
  unfold initialize_structure.
  destruct (calculate_i_section_properties _ _ _ _) as [A Ixx].
  intros H.
  exists (E_GPa * inject_Z (10 ^ 9) * A), (E_GPa * inject_Z (10 ^ 9) * Ixx).
  revert H.
  destruct (build_ground_structure hypot _ span height) as [ss1 md].
  cbn [fst snd].
  destruct (apply_supports support_type _ _ ss1) as [ss2|e]; [|done].
  rewrite bind_Ok_l.
  destruct (point_load _ _ ss2) as [ss3|e] eqn:Hp; [|done].
  rewrite bind_Ok_l. intros [= <-]. exists ss2. by repeat split.
Qed.

Lemma initialize_structure_parts (hypot : Q -> Q -> Q)
    (span height load_kn E_GPa : Q) (support_type : string)
    (sp : section_params) (o : TopologyOptimizer) :
  initialize_structure hypot span height load_kn support_type E_GPa sp
    = Ok o ->
  exists ea ei,
    elements_metadata o
    = map_symmetry hypot span
        (snd (build_ground_structure hypot (new_system ea ei) span height)) /\
    element_map (ss o)
    = element_map
        (fst (build_ground_structure hypot (new_system ea ei) span height)).
Proof.
  intros H.
  apply initialize_structure_inv
    in H as (ea & ei & ss2 & _ & _ & Hs & Hp & Hmd & _).
  exists ea, ei. split; [done|].
  apply point_load_Ok in Hp as (_ & -> & _).
  by apply apply_supports_elements in Hs.
Qed.

(** Whether [initialize_structure] succeeds is decided by the grid alone: it
    does when some pair of grid nodes is joined, and otherwise the placement
    of the load (or of the first support) raises [TypeError]. *)
Lemma initialize_structure_succeeds (hypot : Q -> Q -> Q)
    (span height load_kn E_GPa : Q) (support_type : string)
    (sp : section_params) :
  existsb (qualifies hypot (max_connection_distance span))
          (combinations2 (grid_nodes span height)) = true ->
  exists o,
    initialize_structure hypot span height load_kn support_type E_GPa sp
    = Ok o.
Proof.
  intros Hq. unfold initialize_structure.
  destruct (calculate_i_section_properties _ _ _ _) as [A Ixx].
  assert (Hnodes :
    node_map (fst (build_ground_structure hypot
                     (new_system (E_GPa * inject_Z (10 ^ 9) * A)
                                 (E_GPa * inject_Z (10 ^ 9) * Ixx))
                     span height)) <> []).
  { intros H. apply build_ground_structure_nodes in H. congruence. }
  revert Hnodes.
  destruct (build_ground_structure hypot _ span height) as [ss1 md].
  cbn [fst]. intros Hnodes.
  assert (Hsup : exists ss2,
            apply_supports support_type (get_nid hypot ss1 0 0)
              (get_nid hypot ss1 span 0) ss1 = Ok ss2 /\
            node_map ss2 = node_map ss1).
  { destruct (get_nid_is_Some hypot ss1 0 0 Hnodes) as [l ->].
    destruct (get_nid_is_Some hypot ss1 span 0 Hnodes) as [r ->].
    unfold apply_supports.
    repeat match goal with |- context [String.eqb ?a ?b] =>
      destruct (String.eqb a b) end; by eexists. }
  destruct Hsup as (ss2 & -> & Hn2). rewrite bind_Ok_l.
  destruct (get_nid_is_Some hypot ss2 (span / 2) height) as [n ->];
    [by rewrite Hn2|].
  by eexists.
Qed.

Lemma initialize_structure_no_member (hypot : Q -> Q -> Q)
    (span height load_kn E_GPa : Q) (support_type : string)
    (sp : section_params) :
  existsb (qualifies hypot (max_connection_distance span))
          (combinations2 (grid_nodes span height)) = false ->
  initialize_structure hypot span height load_kn support_type E_GPa sp
  = Raise TypeError.
Proof.
  intros Hq. unfold initialize_structure.
  destruct (calculate_i_section_properties _ _ _ _) as [A Ixx].
  pose proof (proj2 (build_ground_structure_nodes hypot
                       (E_GPa * inject_Z (10 ^ 9) * A)
                       (E_GPa * inject_Z (10 ^ 9) * Ixx) span height) Hq)
    as Hnodes.
  revert Hnodes.
  destruct (build_ground_structure hypot _ span height) as [ss1 md].
  cbn [fst]. intros Hnodes.
  rewrite !(get_nid_no_node hypot ss1) by done.
  unfold apply_supports, add_support.
  repeat match goal with |- context [String.eqb ?a ?b] =>
    destruct (String.eqb a b) end; try done.
  rewrite bind_Ok_l. by rewrite (get_nid_no_node hypot ss1) by done.
Qed.

(** X25.  Whether [initialize_structure] succeeds is decided by the grid
    alone: it returns normally when at least one pair of grid nodes is
    joined, and raises [TypeError] when none is (the solver then has no node,
    [get_nid] answers [None], and the first support or the load is placed on
    node [None]). *)
Theorem initialization_needs_a_member (hypot : Q -> Q -> Q)
    (span height load_kn E_GPa : Q) (support_type : string)
    (sp : section_params) :
  if existsb (qualifies hypot (max_connection_distance span))
             (combinations2 (grid_nodes span height))
  then exists o,
         initialize_structure hypot span height load_kn support_type E_GPa sp
         = Ok o
  else initialize_structure hypot span height load_kn support_type E_GPa sp
       = Raise TypeError.
Proof.
  destruct (existsb _ _) eqn:Hq.
  - by apply initialize_structure_succeeds.
  - by apply initialize_structure_no_member.
Qed.

(** *** The mesh does not depend on the section *)

Lemma connect_fold_same_mesh (hypot : Q -> Q -> Q) (max_dist : Q)
    (pairs : list (point * point)) (st st' : SystemElements * list Member.t) :
  same_mesh (fst st) (fst st') -> snd st' = snd st ->
  same_mesh (fst (fold_left (connect hypot max_dist) pairs st))
            (fst (fold_left (connect hypot max_dist) pairs st')) /\
  snd (fold_left (connect hypot max_dist) pairs st')
  = snd (fold_left (connect hypot max_dist) pairs st).
Proof.
  revert st st'. induction pairs as [|pq pairs IH]; intros st st' Hm Hmd.
  - done.
  - cbn [fold_left]. apply IH; rewrite !connect_eq;
      destruct (qualifies hypot max_dist pq); try done;
      destruct Hm as (Hn & Hs & Hl & He).
    + unfold same_mesh. cbn. rewrite Hn, Hs, Hl, !length_app, He. done.
    + cbn. by rewrite Hmd, He.
Qed.

Lemma build_ground_structure_same_mesh (hypot : Q -> Q -> Q)
    (ea ei ea' ei' span height : Q) :
  same_mesh
    (fst (build_ground_structure hypot (new_system ea ei) span height))
    (fst (build_ground_structure hypot (new_system ea' ei') span height)) /\
  snd (build_ground_structure hypot (new_system ea' ei') span height)
  = snd (build_ground_structure hypot (new_system ea ei) span height).
Proof.
  unfold build_ground_structure.
  generalize (combinations2 (grid_nodes span height))
             (max_connection_distance span).
  intros pairs max_dist. by apply connect_fold_same_mesh.
Qed.

Lemma add_support_same_mesh (k : support_kind) (nid : option nat)
    (s s' : SystemElements) :
  same_mesh s s' ->
  same_outcome same_mesh (add_support k nid s) (add_support k nid s').
Proof.
  intros (Hn & Hs & Hl & He). unfold add_support.
  destruct nid; [|done]. unfold same_outcome, same_mesh. cbn.
  by rewrite Hn, Hs, Hl, He.
Qed.

Lemma bind_same_mesh (r r' : result SystemElements)
    (f : SystemElements -> result SystemElements) :
  same_outcome same_mesh r r' ->
  (forall s s', same_mesh s s' -> same_outcome same_mesh (f s) (f s')) ->
  same_outcome same_mesh (r ≫= f) (r' ≫= f).
Proof.
  intros Hr Hf. destruct r as [s|e], r' as [s'|e']; try done.
  rewrite !bind_Ok_l. by apply Hf.
Qed.

Lemma apply_supports_same_mesh (support_type : string)
    (id_L id_R : option nat) (s s' : SystemElements) :
  same_mesh s s' ->
  same_outcome same_mesh (apply_supports support_type id_L id_R s)
                         (apply_supports support_type id_L id_R s').
Proof.
  intros Hm. unfold apply_supports.
  repeat match goal with |- context [String.eqb ?a ?b] =>
    destruct (String.eqb a b) end;
    try (apply bind_same_mesh;
         [by apply add_support_same_mesh
         |intros; by apply add_support_same_mesh]).
  done.
Qed.

Lemma point_load_same_mesh (nid : option nat) (fy : Q)
    (s s' : SystemElements) :
  same_mesh s s' ->
  same_outcome same_mesh (point_load nid fy s) (point_load nid fy s').
Proof.
  intros (Hn & Hs & Hl & He). unfold point_load.
  destruct nid; [|done]. unfold same_outcome, same_mesh. cbn.
  by rewrite Hn, Hs, Hl, He.
Qed.

(** C1 (as amended).  No section is rejected: the outcome of
    [initialize_structure] is the same for every two sections, degenerate or
    not.  Either both calls raise the same exception, or both return, with
    the same members, nodes, supports, load, load node and number of solver
    elements; only the stiffness values can differ. *)
Theorem C1_section_never_rejected (hypot : Q -> Q -> Q)
    (span height load_kn E_GPa : Q) (support_type : string)
    (sp sp' : section_params) :
  same_outcome
    (fun o o' =>
       elements_metadata o' = elements_metadata o /\
       same_mesh (ss o) (ss o') /\
       load_node_id o' = load_node_id o)
    (initialize_structure hypot span height load_kn support_type E_GPa sp)
    (initialize_structure hypot span height load_kn support_type E_GPa sp').
Proof.
  unfold initialize_structure.
  destruct (calculate_i_section_properties (sec_B sp) _ _ _) as [A Ixx].
  destruct (calculate_i_section_properties (sec_B sp') _ _ _) as [A' Ixx'].
  pose proof (build_ground_structure_same_mesh hypot
                (E_GPa * inject_Z (10 ^ 9) * A)
                (E_GPa * inject_Z (10 ^ 9) * Ixx)
                (E_GPa * inject_Z (10 ^ 9) * A')
                (E_GPa * inject_Z (10 ^ 9) * Ixx') span height) as Hb.
  revert Hb.
  destruct (build_ground_structure hypot
              (new_system (E_GPa * inject_Z (10 ^ 9) * A) _) span height)
    as [ss1 md].
  destruct (build_ground_structure hypot
              (new_system (E_GPa * inject_Z (10 ^ 9) * A') _) span height)
    as [ss1' md'].
  cbn [fst snd]. intros [Hm ->].
  assert (Hnid : forall x y, get_nid hypot ss1' x y = get_nid hypot ss1 x y).
  { intros x y. unfold get_nid. by destruct Hm as (-> & _). }
  rewrite !Hnid.
  pose proof (apply_supports_same_mesh support_type (get_nid hypot ss1 0 0)
                (get_nid hypot ss1 span 0) ss1 ss1' Hm) as Hs.
  destruct (apply_supports support_type _ _ ss1) as [ss2|e],
           (apply_supports support_type _ _ ss1') as [ss2'|e']; try done.
  rewrite !bind_Ok_l. cbn in Hs.
  assert (Hnid2 : get_nid hypot ss2' (span / 2) height
                  = get_nid hypot ss2 (span / 2) height).
  { unfold get_nid. by destruct Hs as (-> & _). }
  rewrite Hnid2.
  pose proof (point_load_same_mesh (get_nid hypot ss2 (span / 2) height)
                (- load_kn) ss2 ss2' Hs) as Hp.
  destruct (point_load _ _ ss2) as [ss3|e], (point_load _ _ ss2') as [ss3'|e'];
    try done.
Qed.

(** C1, counterexample.  A section whose flange thickness is half its depth
    is accepted: [initialize_structure] returns normally and has built the
    full mesh of 107 members. *)
Lemma C1_degenerate_section_accepted :
  sec_D degenerate_section <= 2 * sec_tf degenerate_section /\
  returns (initialize_structure hypot9 16 5 800000 "Pinned-Roller" 200
             degenerate_section)
          (fun o => length (elements_metadata o) = 107%nat).
Proof. split; [by vm_compute|]. vm_compute. reflexivity. Qed.

(** C10 (as amended).  With a support selector that is none of the three
    names and a grid in which at least one pair of nodes is joined,
    [initialize_structure] returns normally and the structure has no support
    at all. *)
Theorem C10_unknown_support_selector (hypot : Q -> Q -> Q)
    (span height load_kn E_GPa : Q) (support_type : string)
    (sp : section_params) :
  support_type <> "Pinned-Roller"%string ->
  support_type <> "Fixed-Fixed"%string ->
  support_type <> "Pinned-Pinned"%string ->
  existsb (qualifies hypot (max_connection_distance span))
          (combinations2 (grid_nodes span height)) = true ->
  exists o,
    initialize_structure hypot span height load_kn support_type E_GPa sp
      = Ok o /\
    supports (ss o) = [].
Proof.
  intros H1 H2 H3 Hq.
  destruct (initialize_structure_succeeds hypot span height load_kn E_GPa
              support_type sp Hq) as [o Ho].
  exists o. split; [done|].
  apply initialize_structure_inv
    in Ho as (ea & ei & ss2 & _ & _ & Hs & Hp & _).
  apply point_load_Ok in Hp as (_ & _ & _ & -> & _).
  apply apply_supports_Ok in Hs as (_ & _ & _ & ->).
  apply String.eqb_neq in H1, H2, H3. rewrite H1, H2, H3, app_nil_r.
  apply build_ground_structure_supports.
Qed.

Lemma C10_unknown_support_selector_witness :
  "Roller-Pinned"%string <> "Pinned-Roller"%string /\
  "Roller-Pinned"%string <> "Fixed-Fixed"%string /\
  "Roller-Pinned"%string <> "Pinned-Pinned"%string /\
  existsb (qualifies hypot9 (max_connection_distance 16))
          (combinations2 (grid_nodes 16 5)) = true /\
  exists o,
    initialize_structure hypot9 16 5 800000 "Roller-Pinned" 200 default_section
      = Ok o /\
    supports (ss o) = [].
Proof.
  split; [by vm_compute|]. split; [by vm_compute|]. split; [by vm_compute|].
  split; [vm_compute; reflexivity|].
  apply (C10_unknown_support_selector hypot9 16 5 800000 200 "Roller-Pinned"
           default_section); by vm_compute.
Defined.

(** C10, counterexample.  With span 0 no pair of grid nodes is joined, the
    solver has no node, and [initialize_structure] with an unknown selector
    does not complete: the placement of the load raises [TypeError]. *)
Lemma C10_unknown_selector_without_nodes :
  "Roller-Pinned"%string <> "Pinned-Roller"%string /\
  "Roller-Pinned"%string <> "Fixed-Fixed"%string /\
  "Roller-Pinned"%string <> "Pinned-Pinned"%string /\
  initialize_structure hypot9 0 5 800000 "Roller-Pinned" 200 default_section
  = Raise TypeError.
Proof.
  split; [by vm_compute|]. split; [by vm_compute|]. split; [by vm_compute|].
  vm_compute. reflexivity.
Qed.

Lemma map_symmetry_spec (hypot : Q -> Q -> Q) (span : Q)
    (md : list Member.t) (el : Member.t) :
  NoDup (Member.id <$> md) ->
  In el (map_symmetry hypot span md) ->
  (forall m, Member.mirror_id el = Some m ->
     m <> Member.id el /\
     exists j twin,
       find_by_id (map_symmetry hypot span md) m = Some (j, twin) /\
       hypot (Member.mid_x twin - (span - Member.mid_x el))
             (Member.mid_y twin - Member.mid_y el) < tolerance) /\
  (span / 2 <= Member.mid_x el -> Member.mirror_id el = None).
Proof.
  intros Hnd0 Hel.
  assert (Hnd : NoDup (Member.id <$> map_symmetry hypot span md))
    by (by rewrite map_symmetry_ids).
  unfold map_symmetry in Hel. apply in_map_iff in Hel as (el0 & <- & Hel0).
  unfold assign_mirror.
  destruct (Member.mid_x el0 <? span / 2) eqn:Hside; cbn.
  - apply Qltb_lt in Hside. split; [|intros Hge; lra].
    intros m Hm. apply find_twin_Some in Hm as (k & p & Hk & Hid & Hc & Herr).
    assert (Hk' : map_symmetry hypot span md !! k
                  = Some (assign_mirror hypot span md p)).
    { unfold map_symmetry. change map with (@fmap list _).
      by rewrite list_lookup_fmap, Hk. }
    split.
    + intros Heq.
      apply list_elem_of_In, list_elem_of_lookup in Hel0 as [i Hi].
      assert (i = k); [|subst i].
      { eapply (NoDup_lookup _ _ _ _ Hnd0); rewrite list_lookup_fmap.
        - by rewrite Hi.
        - rewrite Hk. simpl. congruence. }
      rewrite Hi in Hk. injection Hk as ->. lra.
    + exists k, (assign_mirror hypot span md p). split.
      * rewrite <- Hid, <- (assign_mirror_id hypot span md p).
        by apply find_by_id_unique.
      * destruct (assign_mirror_mid hypot span md p) as [-> ->]. done.
  - split; [intros m Hm; discriminate | reflexivity].
Qed.

(** C6.  In the structure built by [initialize_structure], a member with a
    mirror id is never its own mirror, the member that id refers to has its
    midpoint within the tolerance (0.1) of the reflection
    [(span - mid_x, mid_y)] of the member's midpoint, and a member whose
    midpoint is at or right of the centre line has no mirror. *)
Theorem C6_symmetry_mapper (hypot : Q -> Q -> Q)
    (span height load_kn E_GPa : Q) (support_type : string)
    (sp : section_params) (o : TopologyOptimizer) (el : Member.t) :
  initialize_structure hypot span height load_kn support_type E_GPa sp
    = Ok o ->
  In el (elements_metadata o) ->
  (forall m, Member.mirror_id el = Some m ->
     m <> Member.id el /\
     exists j twin,
       find_by_id (elements_metadata o) m = Some (j, twin) /\
       hypot (Member.mid_x twin - (span - Member.mid_x el))
             (Member.mid_y twin - Member.mid_y el) < tolerance) /\
  (span / 2 <= Member.mid_x el -> Member.mirror_id el = None).
Proof.
  intros Hinit Hel.
  apply initialize_structure_parts in Hinit as (ea & ei & Hmd & _).
  rewrite Hmd in Hel |- *.
  apply map_symmetry_spec; [|done].
  destruct (build_ground_structure_spec hypot ea ei span height)
    as (_ & Hids & _).
  rewrite Hids. apply NoDup_seq.
Qed.

Lemma C6_symmetry_mapper_witness :
  exists o el,
    default_structure = Ok o /\
    In el (elements_metadata o) /\
    Member.mirror_id el = Some 105%nat /\
    (105%nat <> Member.id el /\
     exists j twin,
       find_by_id (elements_metadata o) 105 = Some (j, twin) /\
       hypot9 (Member.mid_x twin - (16 - Member.mid_x el))
              (Member.mid_y twin - Member.mid_y el) < tolerance).
Proof.
  let v := eval vm_compute in default_structure in
  match v with
  | Ok ?o =>
      let e := eval vm_compute in (head (elements_metadata o)) in
      match e with
      | Some ?el => exists o, el
      end
  end.
  split; [vm_compute; reflexivity|].
  split; [left; reflexivity|].
  split; [reflexivity|].
  eapply (C6_symmetry_mapper hypot9 16 5 800000 200 "Pinned-Roller"
            default_section).
  - vm_compute. reflexivity.
  - left. reflexivity.
  - reflexivity.
Defined.

(** ** Soft kill *)

#[local] Instance deactivated_refl : Reflexive deactivated.
Proof. intros el. by left. Qed.

#[local] Instance deactivated_trans : Transitive deactivated.
Proof.
  intros a b c [->| ->] [->| ->]; unfold deactivated; auto.
Qed.

#[local] Instance attenuated_refl : Reflexive attenuated.
Proof. intros e. by exists 0%nat. Qed.

#[local] Instance attenuated_trans : Transitive attenuated.
Proof.
  intros a b c [k ->] [k' ->]. exists (k' + k)%nat.
  by rewrite Nat.iter_add.
Qed.

Lemma deactivated_id (el el' : Member.t) :
  deactivated el el' -> Member.id el' = Member.id el.
Proof. by intros [->| ->]. Qed.

Lemma deactivated_active (el el' : Member.t) :
  deactivated el el' -> Member.active el = false -> Member.active el' = false.
Proof. by intros [->| ->]. Qed.

Lemma Forall2_refl_list {A} (R : A -> A -> Prop) (l : list A) :
  (forall x, R x x) -> Forall2 R l l.
Proof. intros HR. induction l; constructor; auto. Qed.

Lemma Forall2_trans_list {A} (R : A -> A -> Prop) (l k m : list A) :
  (forall x y z, R x y -> R y z -> R x z) ->
  Forall2 R l k -> Forall2 R k m -> Forall2 R l m.
Proof. intros HR. by apply Forall2_trans. Qed.

Lemma pruned_refl (st : list Member.t * list Element) : pruned st st.
Proof.
  split; [apply Forall2_refl_list, deactivated_refl|].
  split; [apply Forall2_refl_list, attenuated_refl|].
  intros j el el' e H1 H2 Ha Hb. congruence.
Qed.

Lemma pruned_trans (s1 s2 s3 : list Member.t * list Element) :
  pruned s1 s2 -> pruned s2 s3 -> pruned s1 s3.
Proof.
  intros (Hm12 & He12 & Hk12) (Hm23 & He23 & Hk23).
  split; [by eapply Forall2_trans_list; [apply deactivated_trans|..]|].
  split; [by eapply Forall2_trans_list; [apply attenuated_trans|..]|].
  intros j el el3 e H1 H3 Ha Hb He.
  destruct (Forall2_lookup_l _ _ _ _ _ Hm12 H1) as (el2 & H2 & Hd).
  assert (Hid : Member.id el2 = Member.id el) by by apply deactivated_id.
  destruct (Member.active el2) eqn:Ha2.
  - destruct (Member.id el) as [|i] eqn:Hi; [done|]. simpl in He.
    destruct (Forall2_lookup_l _ _ _ _ _ He12 He) as (e2 & He2 & [k ->]).
    destruct (Hk23 j el2 el3 (Nat.iter k soft_kill e) H2 H3 Ha2 Hb)
      as [k' Hk']; [by rewrite Hid|].
    exists (k' + k)%nat. rewrite Hid in Hk'. rewrite Hk'.
    by rewrite <- Nat.iter_add.
  - destruct (Hk12 j el el2 e H1 H2 Ha Ha2 He) as [k Hk].
    destruct (Member.id el) as [|i] eqn:Hi; [done|]. simpl in *.
    destruct (Forall2_lookup_l _ _ _ _ _ He23 Hk) as (e3 & He3 & [k' ->]).
    exists (k' + k)%nat. rewrite He3.
    change (Nat.iter k' soft_kill (Nat.iter (S k) soft_kill e))
      with (Nat.iter k' soft_kill (soft_kill (Nat.iter k soft_kill e))).
    by rewrite <- Nat.iter_succ_r, <- Nat.iter_add, Nat.add_succ_l.
Qed.

Lemma soft_kill_element_Ok (em em' : list Element) (k : nat) :
  soft_kill_element em k = Ok em' ->
  exists e,
    lookup_element em k = Some e /\
    lookup_element em' k = Some (soft_kill e) /\
    Forall2 attenuated em em'.
Proof.
  unfold soft_kill_element. intros H.
  apply bind_Ok in H as (e & He & [= <-]). apply of_option_Ok in He.
  exists e. split; [done|]. destruct k as [|i]; [done|]. simpl in *.
  split.
  - apply list_lookup_insert_eq. by eapply lookup_lt_Some.
  - apply Forall2_same_length_lookup. split; [by rewrite length_insert|].
    intros j x y Hx Hy. destruct (decide (i = j)) as [->|Hne].
    + rewrite list_lookup_insert_eq in Hy by by eapply lookup_lt_Some.
      exists 1%nat. simpl. congruence.
    + rewrite list_lookup_insert_ne in Hy by done.
      exists 0%nat. simpl. congruence.
Qed.

(** Clearing the flag of member [j] and soft-killing its element. *)
Lemma pruned_kill (md : list Member.t) (em em' : list Element) j x :
  md !! j = Some x ->
  soft_kill_element em (Member.id x) = Ok em' ->
  pruned (md, em) (alter (Member.set_active false) j md, em').
Proof.
  intros Hj Hk. apply soft_kill_element_Ok in Hk as (e & He & He' & Hatt).
  split; [|split; [done|]]; simpl.
  - apply Forall2_same_length_lookup. split; [by rewrite length_alter|].
    intros i a b Ha Hb. destruct (decide (j = i)) as [->|Hne].
    + rewrite list_lookup_alter_eq, Ha in Hb. injection Hb as <-. by right.
    + rewrite list_lookup_alter_ne in Hb by done. left. congruence.
  - intros i el el' e0 Hi Hi' Hact Hin He0.
    destruct (decide (j = i)) as [->|Hne].
    + exists 0%nat. simpl. congruence.
    + rewrite list_lookup_alter_ne in Hi' by done. congruence.
Qed.

Lemma pruned_lookup (st st' : list Member.t * list Element) j el :
  pruned st st' -> fst st !! j = Some el ->
  exists el', fst st' !! j = Some el' /\ deactivated el el'.
Proof. intros (H & _) Hj. by eapply Forall2_lookup_l. Qed.

Lemma pruned_inactive (st st' : list Member.t * list Element) j el :
  pruned st st' -> fst st !! j = Some el -> Member.active el = false ->
  exists el', fst st' !! j = Some el' /\ Member.active el' = false.
Proof.
  intros Hp Hj Ha. destruct (pruned_lookup _ _ _ _ Hp Hj) as (el' & H1 & H2).
  exists el'. split; [done|]. by eapply deactivated_active.
Qed.

Lemma find_by_id_deactivated (md md' : list Member.t) m j x :
  Forall2 deactivated md md' ->
  find_by_id md m = Some (j, x) ->
  exists x', find_by_id md' m = Some (j, x') /\ deactivated x x'.
Proof.
  intros HF Hfind. apply list_find_Some in Hfind as (Hj & Hid & Hfirst).
  destruct (Forall2_lookup_l _ _ _ _ _ HF Hj) as (x' & Hj' & Hd).
  exists x'. split; [|done]. apply list_find_Some.
  split; [done|]. split; [by rewrite (deactivated_id _ _ Hd)|].
  intros i y Hi Hlt Hy.
  destruct (Forall2_lookup_r _ _ _ _ _ HF Hi) as (y0 & Hi0 & Hd0).
  apply (Hfirst i y0 Hi0 Hlt). by rewrite <- (deactivated_id _ _ Hd0).
Qed.

Lemma find_by_id_pruned (st st' : list Member.t * list Element) m j x :
  pruned st st' -> find_by_id (fst st) m = Some (j, x) ->
  exists x', find_by_id (fst st') m = Some (j, x') /\ deactivated x x'.
Proof. intros (H & _). by apply find_by_id_deactivated. Qed.

Lemma kill_twin_Ok (st st' : list Member.t * list Element) m :
  kill_twin st m = Ok st' ->
  pruned st st' /\
  forall j twin,
    find_by_id (fst st) m = Some (j, twin) ->
    exists twin', fst st' !! j = Some twin' /\ Member.active twin' = false.
Proof.
  unfold kill_twin. destruct st as [md em]. simpl.
  destruct (find_by_id md m) as [[j twin]|] eqn:Hfind.
  - pose proof Hfind as Hfind'.
    apply list_find_Some in Hfind' as (Hj & _ & _).
    destruct (Member.active twin) eqn:Hact.
    + intros H. apply bind_Ok in H as (em' & Hk & [= <-]).
      split; [by eapply pruned_kill|].
      intros ? ? [= <- <-]. simpl. rewrite list_lookup_alter_eq, Hj.
      by eexists.
    + intros [= <-]. split; [apply pruned_refl|].
      intros ? ? [= <- <-]. by exists twin.
  - intros [= <-]. split; [apply pruned_refl|]. done.
Qed.

Lemma kill_target_Ok (active_list : list nat)
    (st st' : list Member.t * list Element) (i : nat) :
  kill_target active_list st i = Ok st' ->
  pruned st st' /\
  exists t el,
    active_list !! i = Some t /\ fst st !! t = Some el /\
    (exists el', fst st' !! t = Some el' /\ Member.active el' = false) /\
    (forall m j twin,
       Member.mirror_id el = Some m -> m <> 0%nat ->
       find_by_id (fst st) m = Some (j, twin) ->
       exists twin', fst st' !! j = Some twin' /\ Member.active twin' = false).
Proof.
  unfold kill_target. destruct st as [md em]. simpl. intros H.
  apply bind_Ok in H as (t & Ht & H). apply of_option_Ok in Ht.
  apply bind_Ok in H as (el & Hel & H). apply of_option_Ok in Hel.
  apply bind_Ok in H as (em1 & Hk & H).
  pose proof (pruned_kill md em em1 t el Hel Hk) as Hp1.
  assert (Ht1 : exists el1, alter (Member.set_active false) t md !! t = Some el1
                            /\ Member.active el1 = false).
  { rewrite list_lookup_alter_eq, Hel. by eexists. }
  destruct Ht1 as (el1 & Hel1 & Hina1).
  destruct (Member.mirror_id el) as [[|m]|] eqn:Hm.
  - injection H as <-. split; [done|]. exists t, el.
    repeat split; eauto. intros m j twin Hm' Hne. congruence.
  - apply kill_twin_Ok in H as (Hp2 & Htwin).
    split; [by eapply pruned_trans|]. exists t, el.
    split; [done|]. split; [done|]. split.
    + by eapply (pruned_inactive _ _ _ _ Hp2).
    + intros m' j twin Hm' _ Hfind.
      rewrite Hm in Hm'. injection Hm' as <-.
      destruct (find_by_id_pruned _ _ _ _ _ Hp1 Hfind) as (x' & Hx' & _).
      by apply (Htwin j x').
  - injection H as <-. split; [done|]. exists t, el.
    repeat split; eauto. intros m j twin Hm'. congruence.
Qed.

Lemma kill_loop_Ok (active_list range : list nat)
    (st st' : list Member.t * list Element) :
  kill_loop active_list range st = Ok st' ->
  pruned st st' /\
  forall i, In i range ->
    exists sa sb,
      pruned st sa /\ kill_target active_list sa i = Ok sb /\ pruned sb st'.
Proof.
  revert st. induction range as [|i range IH]; intros st; simpl.
  - intros [= <-]. split; [apply pruned_refl|]. done.
  - intros H. apply bind_Ok in H as (s1 & H1 & H2).
    destruct (IH _ H2) as (Hp2 & Hrest).
    destruct (kill_target_Ok _ _ _ _ H1) as (Hp1 & _).
    split; [by eapply pruned_trans|].
    intros k [<-|Hk].
    + exists st, s1. split; [apply pruned_refl|]. done.
    + destruct (Hrest k Hk) as (sa & sb & Ha & Hb & Hc).
      exists sa, sb. split; [by eapply pruned_trans|]. done.
Qed.



(** ** Ranking *)

Lemma insert_ref_perm (md : list Member.t) (r : nat) (l : list nat) :
  insert_ref md r l ≡ₚ r :: l.
Proof.
  induction l as [|s rest IH]; simpl; [done|].
  destruct (energy_of md s <? energy_of md r); [|done].
  rewrite IH. apply Permutation_swap.
Qed.

Lemma sort_refs_perm (md : list Member.t) (l : list nat) :
  sort_refs md l ≡ₚ l.
Proof.
  induction l as [|r l IH]; simpl; [done|].
  by rewrite insert_ref_perm, IH.
Qed.



(** ** Removal count *)

Lemma py_int_max (x : Q) : Z.max 1 (py_int x) = Z.max 1 (Qfloor x).
Proof.
  unfold py_int. destruct (0 <=? x) eqn:H; [done|].
  assert (Hx : x < 0).
  { apply Qnot_le_lt. intros Hle. apply Qle_bool_iff in Hle. congruence. }
  assert (Qfloor x <= 0)%Z.
  { change 0%Z with (Qfloor 0). apply Qfloor_resp_le. lra. }
  assert (Qceiling x <= 0)%Z.
  { change 0%Z with (Qceiling 0). apply Qceiling_resp_le. lra. }
  lia.
Qed.

Lemma count_to_remove_spec (n : nat) (r : Q) :
  count_to_remove n r
  = if (n <? safety_floor)%nat then 0%nat
    else Z.to_nat (Z.max 1 (Qfloor (Qnat n * r))).
Proof.
  unfold count_to_remove. destruct (n <? safety_floor)%nat; [done|].
  rewrite <- py_int_max. f_equal.
  destruct (py_int (Qnat n * r) <? 1)%Z eqn:H.
  - apply Z.ltb_lt in H. lia.
  - apply Z.ltb_ge in H. lia.
Qed.

(** ** Energy evaluation *)

Lemma active_refs_from_In (k r : nat) (md : list Member.t) :
  In r (active_refs_from k md) <->
  (k <= r)%nat /\
  exists el, md !! (r - k)%nat = Some el /\ Member.active el = true.
Proof.
  revert k. induction md as [|x md IH]; intros k; simpl.
  - split; [done|]. by intros (_ & el & ? & _).
  - assert (Hrest : In r (active_refs_from (S k) md) <->
                    (k < r)%nat /\
                    exists el, md !! (r - S k)%nat = Some el
                               /\ Member.active el = true).
    { rewrite IH. done. }
    destruct (Member.active x) eqn:Hx; simpl; rewrite ?Hrest.
    + split.
      * intros [<-|(Hlt & el & Hel & Ha)].
        -- split; [lia|]. exists x. by rewrite Nat.sub_diag.
        -- split; [lia|]. exists el.
           replace (r - k)%nat with (S (r - S k)) by lia. done.
      * intros (Hle & el & Hel & Ha).
        destruct (decide (k = r)) as [->|Hne]; [by left|right].
        split; [lia|]. exists el.
        replace (r - k)%nat with (S (r - S k)) in Hel by lia. done.
    + split.
      * intros (Hlt & el & Hel & Ha). split; [lia|]. exists el.
        replace (r - k)%nat with (S (r - S k)) by lia. done.
      * intros (Hle & el & Hel & Ha).
        destruct (decide (k = r)) as [->|Hne].
        { rewrite Nat.sub_diag in Hel. simpl in Hel. congruence. }
        split; [lia|]. exists el.
        replace (r - k)%nat with (S (r - S k)) in Hel by lia. done.
Qed.

Lemma active_refs_In (r : nat) (md : list Member.t) :
  In r (active_refs md) <->
  exists el, md !! r = Some el /\ Member.active el = true.
Proof.
  unfold active_refs. rewrite active_refs_from_In, Nat.sub_0_r.
  split; [by intros [_ ?]|]. intros H. split; [lia|done].
Qed.

Lemma active_refs_from_NoDup (k : nat) (md : list Member.t) :
  NoDup (active_refs_from k md).
Proof.
  revert k. induction md as [|x md IH]; intros k; simpl; [constructor|].
  destruct (Member.active x); [|done]. constructor; [|done].
  rewrite list_elem_of_In, active_refs_from_In. lia.
Qed.

Lemma active_refs_NoDup (md : list Member.t) : NoDup (active_refs md).
Proof. apply active_refs_from_NoDup. Qed.

(** The value written for a member by step B. *)
Lemma evaluate_member_lookup (results : nat -> element_results)
    (acc : energy_acc) (r i : nat) (el : Member.t) :
  acc_md acc !! i = Some el ->
  acc_md (evaluate_member results acc r) !! i
  = Some (if decide (r = i) then
            Member.set_strain_energy
              (extract_force (results (Member.id el)) ^ 2 * Member.length el)
              (Member.set_force_val
                 (extract_force (results (Member.id el))) el)
          else el).
Proof.
  intros Hi. unfold evaluate_member. destruct (decide (r = i)) as [->|Hne].
  - rewrite Hi. simpl. apply list_lookup_insert_eq. by eapply lookup_lt_Some.
  - destruct (acc_md acc !! r); [|done]. simpl.
    by rewrite list_lookup_insert_ne.
Qed.

Lemma evaluate_energy_lookup (results : nat -> element_results)
    (refs : list nat) (acc : energy_acc) (i : nat) (el : Member.t) :
  NoDup refs ->
  acc_md acc !! i = Some el ->
  acc_md (fold_left (evaluate_member results) refs acc) !! i
  = Some (if decide (i ∈ refs) then
            Member.set_strain_energy
              (extract_force (results (Member.id el)) ^ 2 * Member.length el)
              (Member.set_force_val
                 (extract_force (results (Member.id el))) el)
          else el).
Proof.
  revert acc el. induction refs as [|r refs IH]; intros acc el Hnd Hi; simpl.
  - done.
  - apply NoDup_cons in Hnd as [Hr Hnd].
    pose proof (evaluate_member_lookup results acc r i el Hi) as Hstep.
    rewrite (IH _ _ Hnd Hstep).
    destruct (decide (r = i)) as [->|Hne].
    + rewrite (decide_False (P := i ∈ refs)) by done.
      by rewrite (decide_True (P := i ∈ i :: refs)) by by left.
    + destruct (decide (i ∈ refs)) as [Hin|Hin].
      * by rewrite (decide_True (P := i ∈ r :: refs)) by by right.
      * rewrite (decide_False (P := i ∈ r :: refs)); [done|].
        intros [->|?]%elem_of_cons; done.
Qed.

(** ** Force extraction *)

Lemma py_max_spec (x : Q) (l : list Q) :
  In (py_max x l) (x :: l) /\ forall v, In v (x :: l) -> v <= py_max x l.
Proof.
  unfold py_max. revert x. induction l as [|y l IH]; intros x; simpl.
  - split; [by left|]. intros v [<-|[]]. lra.
  - destruct (IH (Qmax x y)) as [Hin Hub]. split.
    + destruct Hin as [Heq|Hin]; [|auto].
      rewrite <- Heq. destruct (Qmax_cases x y) as [-> | ->]; auto.
    + pose proof (Hub (Qmax x y) (or_introl eq_refl)) as Hxy.
      pose proof (Qmax_ub_l x y). pose proof (Qmax_ub_r x y).
      intros v [Hv|[Hv|Hv]]; subst; [lra|lra|].
      apply Hub. by right.
Qed.

Lemma valid_forces_abs (raw : list (option Q)) :
  valid_forces raw = Qabs <$> omap id raw.
Proof.
  unfold valid_forces. induction raw as [|[x|] raw IH]; [done|..].
  - cbn. f_equal. exact IH.
  - cbn. exact IH.
Qed.

Lemma Qmax_abs_pair (a b : Q) :
  (Qmax (Qabs a) (Qabs b) == Qabs a \/ Qmax (Qabs a) (Qabs b) == Qabs b) /\
  Qabs a <= Qmax (Qabs a) (Qabs b) /\ Qabs b <= Qmax (Qabs a) (Qabs b).
Proof.
  split; [|split; [apply Qmax_ub_l|apply Qmax_ub_r]].
  destruct (Qmax_cases (Qabs a) (Qabs b)) as [-> | ->]; [left|right];
    reflexivity.
Qed.

Lemma Qmax_abs_only (a : Q) (f : Q) :
  f = Qmax (Qabs a) (Qabs 0) \/ f = Qmax (Qabs 0) (Qabs a) ->
  f == Qabs a.
Proof.
  pose proof (Qabs_nonneg a) as Ha.
  assert (H0 : Qabs 0 == 0) by reflexivity.
  intros [-> | ->].
  - destruct (Qmax_abs_pair a 0) as ([H|H] & H1 & H2); lra.
  - destruct (Qmax_abs_pair 0 a) as ([H|H] & H1 & H2); lra.
Qed.

Lemma extract_force_spec (res : element_results) :
  force_spec res (extract_force res).
Proof.
  unfold force_spec, reported_values, extract_force.
  destruct (res_N res) as [| |x|raw]; simpl.
  - reflexivity.
  - destruct (res_Nmin res) as [[a|]|], (res_Nmax res) as [[b|]|]; simpl;
      try reflexivity.
    { destruct (Qmax_abs_pair a b) as (Hc & Ha & Hb). split.
      - destruct Hc as [Hc|Hc]; [exists a|exists b]; auto.
      - intros v [<-|[<-|[]]]; done. }
    all: split;
      [eexists; split; [by left|apply Qmax_abs_only; auto]
      |intros v [<-|[]]; apply Qle_lteq; right; symmetry;
       apply Qmax_abs_only; auto].
  - split; [exists x; split; [by left|reflexivity]|].
    intros v [<-|[]]. lra.
  - rewrite valid_forces_abs. destruct (omap id raw) as [|v vs].
    + reflexivity.
    + change (Qabs <$> v :: vs) with (Qabs v :: (Qabs <$> vs)). cbv iota.
      destruct (py_max_spec (Qabs v) (Qabs <$> vs)) as [Hin Hub]. split.
      * change (Qabs v :: (Qabs <$> vs)) with (Qabs <$> (v :: vs)) in Hin.
        apply list_elem_of_In, list_elem_of_fmap in Hin as (w & Hw & Hin).
        exists w. rewrite Hw. split; [by apply (list_elem_of_In (v :: vs) w)|reflexivity].
      * intros w Hw. apply Hub.
        change (Qabs v :: (Qabs <$> vs)) with (Qabs <$> (v :: vs)).
        apply list_elem_of_In, list_elem_of_fmap. exists w.
        split; [done|by apply (list_elem_of_In (v :: vs) w)].
Qed.

(** C7.  After the energy evaluation step, every active member holds
    [force_val = force] and [strain_energy = force^2 * length], where [force]
    is the largest absolute value among the axial forces the solver reported
    for the member (the absolute value of a scalar, the maximum over a
    sampled distribution or over its reported extremes) and zero when the
    solver reported none. *)
Theorem C7_strain_energy_of_active_members
    (results : nat -> element_results) (md : list Member.t)
    (i : nat) (el : Member.t) :
  md !! i = Some el ->
  Member.active el = true ->
  exists el' force,
    acc_md (evaluate_energy results md (active_refs md)) !! i = Some el' /\
    force_spec (results (Member.id el)) force /\
    Member.force_val el' = Some force /\
    Member.strain_energy el' = force ^ 2 * Member.length el /\
    Member.length el' = Member.length el.
Proof.
  intros Hi Hact. unfold evaluate_energy.
  rewrite (evaluate_energy_lookup results (active_refs md) (mkAcc md 0 0) i el
             (active_refs_NoDup md) Hi).
  rewrite decide_True.
  - eexists _, (extract_force (results (Member.id el))).
    split; [reflexivity|]. split; [apply extract_force_spec|]. done.
  - apply list_elem_of_In, active_refs_In. eauto.
Qed.

(** ** Frame of steps B and C *)

Lemma re_evaluated_refl (el : Member.t) : re_evaluated el el.
Proof. by repeat split. Qed.

Lemma re_evaluated_trans (a b c : Member.t) :
  re_evaluated a b -> re_evaluated b c -> re_evaluated a c.
Proof. unfold re_evaluated. intuition congruence. Qed.

Lemma re_evaluated_energy (e : Q) (el : Member.t) :
  re_evaluated el (Member.set_strain_energy e el).
Proof. by repeat split. Qed.

Lemma re_evaluated_alter (f : Member.t -> Member.t) (md : list Member.t) i :
  (forall el, re_evaluated el (f el)) ->
  Forall2 re_evaluated md (alter f i md).
Proof.
  intros Hf. apply Forall2_same_length_lookup.
  split; [by rewrite length_alter|]. intros j a b Ha Hb.
  destruct (decide (i = j)) as [->|Hne].
  - rewrite list_lookup_alter_eq, Ha in Hb. injection Hb as <-. apply Hf.
  - rewrite list_lookup_alter_ne, Ha in Hb by done. injection Hb as <-.
    apply re_evaluated_refl.
Qed.

Lemma evaluate_member_frame (results : nat -> element_results)
    (acc : energy_acc) (r : nat) :
  Forall2 re_evaluated (acc_md acc) (acc_md (evaluate_member results acc r)).
Proof.
  unfold evaluate_member. destruct (acc_md acc !! r) as [el|] eqn:Hr; simpl.
  - apply Forall2_same_length_lookup. split; [by rewrite length_insert|].
    intros j a b Ha Hb. destruct (decide (r = j)) as [->|Hne].
    + rewrite list_lookup_insert_eq in Hb by by eapply lookup_lt_Some.
      injection Hb as <-. rewrite Hr in Ha. injection Ha as <-.
      by repeat split.
    + rewrite list_lookup_insert_ne, Ha in Hb by done. injection Hb as <-.
      apply re_evaluated_refl.
  - apply Forall2_refl_list, re_evaluated_refl.
Qed.

Lemma evaluate_energy_frame (results : nat -> element_results)
    (refs : list nat) (acc : energy_acc) :
  Forall2 re_evaluated (acc_md acc)
          (acc_md (fold_left (evaluate_member results) refs acc)).
Proof.
  revert acc. induction refs as [|r refs IH]; intros acc; simpl.
  - apply Forall2_refl_list, re_evaluated_refl.
  - eapply Forall2_trans_list; [apply re_evaluated_trans| |apply IH].
    apply evaluate_member_frame.
Qed.

Lemma average_with_twin_frame (md : list Member.t) (r : nat) :
  Forall2 re_evaluated md (average_with_twin md r).
Proof.
  unfold average_with_twin.
  destruct (md !! r) as [el|]; [|apply Forall2_refl_list, re_evaluated_refl].
  destruct (Member.mirror_id el) as [m|];
    [|apply Forall2_refl_list, re_evaluated_refl].
  destruct (find_by_id md m) as [[j twin]|];
    [|apply Forall2_refl_list, re_evaluated_refl].
  destruct (Member.active twin);
    [|apply Forall2_refl_list, re_evaluated_refl].
  eapply Forall2_trans_list; [apply re_evaluated_trans|..];
    apply re_evaluated_alter, re_evaluated_energy.
Qed.

Lemma enforce_symmetry_frame (refs : list nat) (md : list Member.t) :
  Forall2 re_evaluated md (enforce_symmetry md refs).
Proof.
  unfold enforce_symmetry. revert md.
  induction refs as [|r refs IH]; intros md; simpl.
  - apply Forall2_refl_list, re_evaluated_refl.
  - eapply Forall2_trans_list; [apply re_evaluated_trans| |apply IH].
    apply average_with_twin_frame.
Qed.

Lemma symmetrized_frame (results : nat -> element_results)
    (md : list Member.t) :
  Forall2 re_evaluated md (symmetrized results md).
Proof.
  unfold symmetrized, evaluate_energy.
  eapply Forall2_trans_list; [apply re_evaluated_trans| |].
  - apply (evaluate_energy_frame results (active_refs md) (mkAcc md 0 0)).
  - apply enforce_symmetry_frame.
Qed.

(** ** run_iteration *)

Lemma run_iteration_Ok (solve : SystemElements -> result (nat -> element_results))
    (o o' : TopologyOptimizer) (iteration_num : nat) (removal_ratio : Q)
    (out : iteration_output) :
  run_iteration solve o iteration_num removal_ratio = Ok (o', out) ->
  exists results em',
    solve (ss o) = Ok results /\
    soft_kill_weakest (ranked results (elements_metadata o))
      (count_to_remove (length (active_refs (elements_metadata o)))
                       removal_ratio)
      (symmetrized results (elements_metadata o), element_map (ss o))
    = Ok (elements_metadata o', em') /\
    ss o' = set_element_map em' (ss o) /\
    load_node_id o' = load_node_id o /\
    E_active o' = E_active o /\
    active_count out
    = (Z.of_nat (length (active_refs (elements_metadata o)))
       - Z.of_nat (count_to_remove (length (active_refs (elements_metadata o)))
                                   removal_ratio))%Z /\
    log_removed (logged out)
    = count_to_remove (length (active_refs (elements_metadata o)))
                      removal_ratio.
Proof.
  unfold run_iteration. intros H.
  apply bind_Ok in H as (results & Hsolve & H).
  apply bind_Ok in H as ([md em] & Hkill & H).
  apply bind_Ok in H as (max_f & Hmax & H).
  injection H as <- <-.
  assert (Hlen : length (ranked results (elements_metadata o))
                 = length (active_refs (elements_metadata o))).
  { unfold ranked. by rewrite sort_refs_perm. }
  fold (symmetrized results (elements_metadata o)) in Hkill.
  fold (ranked results (elements_metadata o)) in Hkill.
  rewrite Hlen in Hkill. exists results, em. simpl.
  fold (symmetrized results (elements_metadata o)).
  fold (ranked results (elements_metadata o)).
  rewrite Hlen. done.
Qed.



(** ** Frame of an iteration *)

Lemma kept_of_steps (a b c : Member.t) :
  re_evaluated a b -> deactivated b c -> kept a c.
Proof.
  unfold re_evaluated, kept. intros H [->| ->]; simpl; intuition congruence.
Qed.

(** An iteration never adds, deletes or reorders members or solver elements,
    never changes a member's geometry, id or mirror id, never re-activates a
    member, and changes a stiffness only by soft kills. *)
Lemma run_iteration_frame
    (solve : SystemElements -> result (nat -> element_results))
    (o o' : TopologyOptimizer) (iteration_num : nat) (r : Q)
    (out : iteration_output) :
  run_iteration solve o iteration_num r = Ok (o', out) ->
  Forall2 kept (elements_metadata o) (elements_metadata o') /\
  Forall2 attenuated (element_map (ss o)) (element_map (ss o')) /\
  node_map (ss o') = node_map (ss o) /\
  supports (ss o') = supports (ss o) /\
  loads (ss o') = loads (ss o).
Proof.
  intros Hrun.
  apply run_iteration_Ok in Hrun
    as (results & em' & _ & Hkill & Hss & _).
  unfold soft_kill_weakest in Hkill.
  destruct (kill_loop_Ok _ _ _ _ Hkill) as ((Hd & Ha & _) & _).
  simpl in Hd, Ha. rewrite Hss. simpl. split; [|done].
  pose proof (symmetrized_frame results (elements_metadata o)) as Hs.
  apply Forall2_same_length_lookup. split.
  - by rewrite (Forall2_length _ _ _ Hs), (Forall2_length _ _ _ Hd).
  - intros i a c Ha' Hc.
    destruct (Forall2_lookup_l _ _ _ _ _ Hs Ha') as (b & Hb & Hab).
    eapply kept_of_steps; [done|].
    by eapply Forall2_lookup_lr.
Qed.

Lemma run_iteration_member_count
    (solve : SystemElements -> result (nat -> element_results))
    (o o' : TopologyOptimizer) (iteration_num : nat) (r : Q)
    (out : iteration_output) :
  run_iteration solve o iteration_num r = Ok (o', out) ->
  length (elements_metadata o') = length (elements_metadata o) /\
  length (element_map (ss o')) = length (element_map (ss o)).
Proof.
  intros H. apply run_iteration_frame in H as (H1 & H2 & _).
  by rewrite (Forall2_length _ _ _ H1), (Forall2_length _ _ _ H2).
Qed.

(** ** OptimizationLoop *)

Section DriverProofs.
Variable solve : SystemElements -> result (nat -> element_results).

Lemma run_loop_running (app : TopologyApp) :
  is_running app = true ->
  run_loop solve app
  = match run_iteration solve (optimizer app) (S (iteration app))
            ui_removal_ratio with
    | Ok (o, out) =>
        if (active_count out <? convergence_floor)%Z then
          (mkApp o false (S (iteration app)) Status_converged, false)
        else
          (mkApp o true (S (iteration app))
                 (Status_iteration (S (iteration app)) (active_count out)),
           true)
    | Raise e =>
        (mkApp (optimizer app) false (S (iteration app))
               (Status_solver_error e), false)
    end.
Proof. unfold run_loop. by intros ->. Qed.

Lemma mainloop_converged_later (fuel : nat) (stop_pressed : nat -> bool)
    (app : TopologyApp) :
  is_running app = true ->
  lbl_status app <> Status_converged ->
  lbl_status (mainloop solve fuel stop_pressed app) = Status_converged ->
  (iteration app < iteration (mainloop solve fuel stop_pressed app))%nat.
Proof.
  revert app. induction fuel as [|fuel IH]; intros app Hrun Hlbl; simpl.
  - done.
  - destruct (stop_pressed (iteration app)); [done|].
    rewrite run_loop_running by done.
    destruct (run_iteration solve (optimizer app) (S (iteration app))
                ui_removal_ratio) as [[o out]|e]; [|done].
    destruct (active_count out <? convergence_floor)%Z.
    + simpl. lia.
    + intros H. apply IH in H; [|done|done]. simpl in H. lia.
Qed.

(** X24.  Started in the running state, the loop reaches the status Converged
    after exactly [k + 1] iterations if and only if STOP was not pressed
    before any of them, each of the first [k] iterations succeeded and
    reported an active count of at least 25, and iteration [k + 1] succeeded
    and reported a count below 25: the loop goes on while the reported count
    is at least 25 and converges at the first iteration that reports less. *)
Theorem converged_at_first_reported_count_below_floor
    (fuel : nat) (stop_pressed : nat -> bool) (app : TopologyApp) (k : nat) :
  is_running app = true ->
  lbl_status app <> Status_converged ->
  (lbl_status (mainloop solve fuel stop_pressed app) = Status_converged /\
   iteration (mainloop solve fuel stop_pressed app)
   = (iteration app + S k)%nat)
  <->
  ((k < fuel)%nat /\
   (forall i, (i <= k)%nat -> stop_pressed (iteration app + i)%nat = false) /\
   exists o_k o' out,
     keeps_running solve k (optimizer app) (iteration app) = Some o_k /\
     run_iteration solve o_k (S (iteration app + k)) ui_removal_ratio
     = Ok (o', out) /\
     (active_count out < convergence_floor)%Z).
Proof.
  revert app k. induction fuel as [|fuel IH]; intros app k Hrun Hlbl.
  - simpl. split; [by intros [? _]|]. intros [? _]. lia.
  - simpl. destruct (stop_pressed (iteration app)) eqn:Hstop.
    { simpl. split; [by intros [? _]|]. intros (_ & Hs & _).
      specialize (Hs 0%nat). rewrite Nat.add_0_r in Hs.
      rewrite Hs in Hstop by lia. done. }
    rewrite run_loop_running by done.
    destruct (run_iteration solve (optimizer app) (S (iteration app))
                ui_removal_ratio) as [[o out]|e] eqn:Hiter.
    2: { simpl. split; [by intros [? _]|]. intros (_ & _ & o_k & o' & out & Hk & Hr & _).
         destruct k as [|k]; simpl in Hk.
         - injection Hk as <-. rewrite Nat.add_0_r in Hr. congruence.
         - by rewrite Hiter in Hk. }
    destruct (active_count out <? convergence_floor)%Z eqn:Hc.
    + simpl. apply Z.ltb_lt in Hc. split.
      * intros [_ Hit]. assert (k = 0%nat) as -> by lia.
        split; [lia|]. split.
        { intros i Hi. assert (i = 0%nat) as -> by lia.
          by rewrite Nat.add_0_r. }
        exists (optimizer app), o, out. rewrite Nat.add_0_r. done.
      * intros (_ & _ & o_k & o' & out' & Hk & Hr & _).
        destruct k as [|k]; simpl in Hk.
        -- split; [done|lia].
        -- rewrite Hiter in Hk. apply Z.ltb_lt in Hc. by rewrite Hc in Hk.
    + set (app2 := mkApp o true (S (iteration app))
                     (Status_iteration (S (iteration app)) (active_count out))).
      destruct k as [|k].
      * split.
        -- intros [Hconv Hit].
           apply (mainloop_converged_later fuel stop_pressed app2) in Hconv;
             [|done|done].
           simpl in Hconv. lia.
        -- intros (_ & _ & o_k & o' & out' & Hk & Hr & Hlt).
           simpl in Hk. injection Hk as <-. rewrite Nat.add_0_r in Hr.
           rewrite Hiter in Hr. injection Hr as <- <-.
           apply Z.ltb_ge in Hc. lia.
      * rewrite (Nat.add_succ_r (iteration app) (S k)).
        change (S (iteration app + S k)) with (iteration app2 + S k)%nat.
        rewrite (IH app2 k) by done.
        simpl. rewrite Hiter, Hc.
        replace (S (iteration app + S k)) with (S (S (iteration app + k)))
          by lia.
        split.
        -- intros (Hk & Hs & Hex). split; [lia|]. split; [|done].
           intros [|i] Hi; [by rewrite Nat.add_0_r|].
           rewrite Nat.add_succ_r. apply Hs. lia.
        -- intros (Hk & Hs & Hex). split; [lia|]. split; [|done].
           intros i Hi. specialize (Hs (S i)). rewrite Nat.add_succ_r in Hs.
           apply Hs. lia.
Qed.

End DriverProofs.

(** ** Concrete runs *)


Lemma C7_strain_energy_of_active_members_witness :
  toy_metadata !! 0%nat = Some (toy_member 1 0 (Some 2%nat)) /\
  Member.active (toy_member 1 0 (Some 2%nat)) = true /\
  exists el' force,
    acc_md (evaluate_energy (two_level_results [1%nat] (-3) 1) toy_metadata
                            (active_refs toy_metadata)) !! 0%nat = Some el' /\
    force_spec (two_level_results [1%nat] (-3) 1 1) force /\
    Member.force_val el' = Some force /\
    Member.strain_energy el' = force ^ 2 * 1 /\
    Member.length el' = 1.
Proof.
  split; [reflexivity|]. split; [reflexivity|].
  apply (C7_strain_energy_of_active_members
           (two_level_results [1%nat] (-3) 1) toy_metadata 0
           (toy_member 1 0 (Some 2%nat))); reflexivity.
Defined.

Lemma converged_at_first_reported_count_below_floor_witness :
  exists o,
    tall_structure = Ok o /\
    is_running (started o) = true /\
    lbl_status (started o) <> Status_converged /\
    lbl_status (mainloop (two_level_solver [] 1 1) 9 (fun _ => false)
                  (started o))
    = Status_converged /\
    iteration (mainloop (two_level_solver [] 1 1) 9 (fun _ => false)
                 (started o))
    = 5%nat.
Proof.
  let v := eval vm_compute in tall_structure in
  match v with
  | Ok ?o => exists o
  end.
  split; [vm_compute; reflexivity|]. split; [reflexivity|].
  split; [discriminate|].
  match goal with
  | |- lbl_status (mainloop ?s ?f ?st ?app) = _ /\ _ =>
      apply (converged_at_first_reported_count_below_floor s f st app 4);
        [reflexivity|discriminate|]
  end.
  split; [lia|]. split; [reflexivity|].
  eexists _, _, _. split; [vm_compute; reflexivity|].
  split; [vm_compute; reflexivity|].
  vm_compute. reflexivity.
Defined.


(** C2 at the default structure.  Members 3 and 5, the two diagonals of a grid
    cell, both have member 94 as mirror.  With no axial force in member 5 and
    1 elsewhere, the iteration removes member 5 and its mirror 94: member 3,
    whose mirror 94 was active and has been removed in this step, is still
    active, so the member and its mirror are not removed together. *)
Lemma C2_mirror_removed_without_member :
  returns default_structure (fun o =>
    Member.id <$> elements_metadata o !! 2%nat = Some 3%nat /\
    Member.mirror_id <$> elements_metadata o !! 2%nat = Some (Some 94%nat) /\
    Member.active <$> elements_metadata o !! 2%nat = Some true /\
    Member.id <$> elements_metadata o !! 93%nat = Some 94%nat /\
    Member.active <$> elements_metadata o !! 93%nat = Some true /\
    returns (run_iteration (two_level_solver [5%nat] 0 1) o 1
                           ui_removal_ratio)
      (fun r =>
         Member.active <$> elements_metadata (fst r) !! 2%nat = Some true /\
         Member.active <$> elements_metadata (fst r) !! 93%nat = Some false /\
         Member.id
           <$> List.filter (fun el => negb (Member.active el))
                           (elements_metadata (fst r))
         = [5; 94]%nat)).
Proof. vm_compute. repeat split; reflexivity. Qed.

(** C3 at the default structure.  With an axial force of 1 in every member,
    iteration 46 starts with 26 active members, selects one and removes it
    together with its mirror: 24 members are active after it, below the
    floor of 25, but the count it returns is 25, so the loop shows
    "Iteration: 46 | Active Elements: 25", goes on, and reaches Converged
    only with iteration 47. *)
Lemma C3_running_below_floor :
  returns default_structure (fun o =>
    let app46 :=
      mainloop (two_level_solver [] 1 1) 46 (fun _ => false) (started o) in
    let app47 :=
      mainloop (two_level_solver [] 1 1) 1 (fun _ => false) app46 in
    iteration app46 = 46%nat /\
    length (active_refs (elements_metadata (optimizer app46))) = 24%nat /\
    lbl_status app46 = Status_iteration 46 25 /\
    is_running app46 = true /\
    iteration app47 = 47%nat /\
    lbl_status app47 = Status_converged).
Proof. vm_compute. repeat split; reflexivity. Qed.

(** C5 at the default structure.  The two diagonals of a grid cell have the
    same midpoint, so both get the same mirror: members 3 and 5 both point to
    member 94.  With an axial force of 2 in member 3 and 1 elsewhere, member 3
    and its mirror 94 are both active after the symmetrization pass and after
    the whole iteration, and their strain energies differ. *)
Lemma C5_shared_mirror_unequal_energy :
  returns default_structure (fun o =>
    let md := symmetrized (two_level_results [3%nat] 2 1)
                          (elements_metadata o) in
    match md !! 2%nat, md !! 4%nat, find_by_id md 94 with
    | Some el, Some other, Some (j, twin) =>
        Member.mirror_id el = Some 94%nat /\
        Member.mirror_id other = Some 94%nat /\
        Member.active el = true /\ Member.active twin = true /\
        ~ Member.strain_energy el == Member.strain_energy twin
    | _, _, _ => False
    end /\
    returns (run_iteration (two_level_solver [3%nat] 2 1) o 1
                           ui_removal_ratio)
      (fun r =>
         match elements_metadata (fst r) !! 2%nat,
               find_by_id (elements_metadata (fst r)) 94 with
         | Some el, Some (j, twin) =>
             Member.mirror_id el = Some 94%nat /\
             Member.active el = true /\ Member.active twin = true /\
             ~ Member.strain_energy el == Member.strain_energy twin
         | _, _ => False
         end)).
Proof. vm_compute. repeat split; done. Qed.

(** C9 at the default structure.  With the two weakest members being
    member 1 and its mirror 105, the first iteration selects both: member 105
    is soft-killed as the mirror of member 1 and once more as a selected
    member, so its stiffness values end up multiplied by 1e-12. *)
Lemma C9_mirror_soft_killed_twice :
  returns default_structure (fun o =>
    returns (run_iteration (two_level_solver [1; 105]%nat 0 1) o 1
                           ui_removal_ratio)
      (fun r =>
         match lookup_element (element_map (ss o)) 105,
               lookup_element (element_map (ss (fst r))) 105,
               lookup_element (element_map (ss (fst r))) 1 with
         | Some e, Some e', Some e1 =>
             e' = soft_kill (soft_kill e) /\
             e1 = soft_kill e /\
             ~ EA e' == EA e * attenuation /\
             ~ EI e' == EI e * attenuation
         | _, _, _ => False
         end)).
Proof. vm_compute. repeat split; done. Qed.

(** ** The reported count *)

(** The count returned by [run_iteration] leaves out the mirrors removed
    with their partners, so it is an upper bound of the number of members
    that are still active, not always that number. *)
Lemma reported_count_bounds_active
    (solve : SystemElements -> result (nat -> element_results))
    (o o' : TopologyOptimizer) (iteration_num : nat) (r : Q)
    (out : iteration_output) :
  run_iteration solve o iteration_num r = Ok (o', out) ->
  (Z.of_nat (length (active_refs (elements_metadata o'))) <= active_count out)%Z.
Proof.
  intros Hrun.
  pose proof (run_iteration_frame _ _ _ _ _ _ Hrun) as (Hkept & _).
  apply run_iteration_Ok in Hrun
    as (results & em' & _ & Hkill & _ & _ & _ & -> & _).
  set (md := elements_metadata o) in *.
  set (count := count_to_remove (length (active_refs md)) r) in *.
  set (sorted := ranked results md) in *.
  assert (Hperm : sorted ≡ₚ active_refs md) by apply sort_refs_perm.
  assert (Htargets : forall i, (i < count)%nat ->
            exists t el', sorted !! i = Some t /\
              elements_metadata o' !! t = Some el' /\
              Member.active el' = false).
  { intros i Hi. unfold soft_kill_weakest in Hkill.
    destruct (kill_loop_Ok _ _ _ _ Hkill) as (_ & Hsteps).
    destruct (Hsteps i) as (sa & sb & _ & Hstep & Hpb).
    { apply in_seq. lia. }
    destruct (kill_target_Ok _ _ _ _ Hstep)
      as (_ & t & ela & Ht & _ & (el1 & Hel1 & Hina1) & _).
    destruct (pruned_inactive _ _ _ _ Hpb Hel1 Hina1) as (el' & Hel' & Hina').
    by exists t, el'. }
  assert (Hcount : (count <= length sorted)%nat).
  { destruct count as [|c]; [lia|].
    destruct (Htargets c) as (t & _ & Ht & _); [lia|].
    apply lookup_lt_Some in Ht. lia. }
  assert (Hsub : active_refs (elements_metadata o') ++ take count sorted
                 ⊆+ active_refs md).
  { apply NoDup_submseteq.
    - apply NoDup_app. split; [apply active_refs_NoDup|]. split.
      + intros x Hx Hx'.
        apply list_elem_of_In, active_refs_In in Hx as (el & Hel & Hact).
        apply elem_of_take in Hx' as (i & Hi & Hlt).
        destruct (Htargets i Hlt) as (t & el' & Ht & Hel' & Hina).
        congruence.
      + eapply sublist_NoDup; [|apply sublist_take].
        rewrite Hperm. apply active_refs_NoDup.
    - intros x [Hx|Hx]%elem_of_app.
      + apply list_elem_of_In, active_refs_In in Hx as (el' & Hel' & Hact).
        destruct (Forall2_lookup_r _ _ _ _ _ Hkept Hel')
          as (el & Hel & Hk).
        apply list_elem_of_In, active_refs_In. exists el. split; [done|].
        unfold kept in Hk. tauto.
      + rewrite <- Hperm. apply elem_of_take in Hx as (i & Hi & _).
        by eapply list_elem_of_lookup_2. }
  apply submseteq_length in Hsub.
  rewrite length_app, length_take_le in Hsub by done.
  rewrite Hperm in Hcount. lia.
Qed.

(** At the default structure, with an axial force of 2 in member 3 and 1
    elsewhere, the first iteration reports 105 active members while 103 are
    left: the two selected members took their mirrors with them. *)
Lemma reported_count_overestimates :
  returns default_structure (fun o =>
    returns (run_iteration (two_level_solver [3%nat] 2 1) o 1
                           ui_removal_ratio)
      (fun r =>
         active_count (snd r) = 105%Z /\
         length (active_refs (elements_metadata (fst r))) = 103%nat)).
Proof. vm_compute. split; reflexivity. Qed.

(** * Further properties of the optimizer *)

(** ** The state invariant *)

Lemma connect_fold_elements (hypot : Q -> Q -> Q) max_dist pairs ss0 md0 :
  length (element_map ss0) = length md0 ->
  Member.id <$> md0 = seq 1 (length md0) ->
  length (element_map (fst (fold_left (connect hypot max_dist) pairs
                                      (ss0, md0))))
  = length (snd (fold_left (connect hypot max_dist) pairs (ss0, md0))) /\
  Member.id <$> snd (fold_left (connect hypot max_dist) pairs (ss0, md0))
  = seq 1 (length (snd (fold_left (connect hypot max_dist) pairs
                                  (ss0, md0)))).
Proof.
  intros Hlen Hids.
  destruct (connect_fold hypot max_dist pairs ss0 md0)
    as (new & H1 & _ & H3 & H4 & _).
  rewrite H1, H4, length_app, fmap_app, H3, Hids, Hlen.
  split; [done|]. by rewrite seq_app.
Qed.

Lemma map_symmetry_length (hypot : Q -> Q -> Q) span md :
  length (map_symmetry hypot span md) = length md.
Proof. unfold map_symmetry. apply length_map. Qed.

(** Every structure built by [initialize_structure] is well formed. *)
Lemma initialize_structure_well_formed (hypot : Q -> Q -> Q)
    (span height load_kn E_GPa : Q) (support_type : string)
    (sp : section_params) (o : TopologyOptimizer) :
  initialize_structure hypot span height load_kn support_type E_GPa sp
    = Ok o ->
  well_formed o.
Proof.
  intros H. apply initialize_structure_parts in H as (ea & ei & Hmd & Hem).
  unfold well_formed. rewrite Hmd, Hem.
  rewrite map_symmetry_ids, map_symmetry_length.
  unfold build_ground_structure.
  destruct (connect_fold_elements hypot (max_connection_distance span)
              (combinations2 (grid_nodes span height))
              (new_system ea ei) [] eq_refl eq_refl) as [H1 H2].
  done.
Qed.

Lemma kept_id (a b : Member.t) : kept a b -> Member.id b = Member.id a.
Proof. by intros [? _]. Qed.

Lemma Forall2_fmap_eq {A B} (R : A -> A -> Prop) (f : A -> B) (l k : list A) :
  (forall x y, R x y -> f y = f x) -> Forall2 R l k -> f <$> k = f <$> l.
Proof.
  intros Hf. induction 1 as [|x y l k Hxy _ IH]; [done|].
  rewrite !fmap_cons, IH. f_equal. by apply Hf.
Qed.

(** [run_iteration] keeps the state well formed. *)
Lemma run_iteration_well_formed
    (solve : SystemElements -> result (nat -> element_results))
    (o o' : TopologyOptimizer) (iteration_num : nat) (r : Q)
    (out : iteration_output) :
  run_iteration solve o iteration_num r = Ok (o', out) ->
  well_formed o -> well_formed o'.
Proof.
  intros Hrun [Hids Hlen].
  destruct (run_iteration_frame _ _ _ _ _ _ Hrun) as (Hk & Ha & _).
  unfold well_formed.
  rewrite (Forall2_fmap_eq kept Member.id _ _ kept_id Hk).
  rewrite <- (Forall2_length _ _ _ Hk), <- (Forall2_length _ _ _ Ha).
  done.
Qed.

(** ** Step C writes the strain energy only *)

Lemma energy_only_refl (el : Member.t) : energy_only el el.
Proof. by destruct el. Qed.

Lemma energy_only_trans (a b c : Member.t) :
  energy_only a b -> energy_only b c -> energy_only a c.
Proof. unfold energy_only. intros -> ->. by destruct a. Qed.

Lemma energy_only_set (e : Q) (el : Member.t) :
  energy_only el (Member.set_strain_energy e el).
Proof. by destruct el. Qed.

Lemma energy_only_alter (e : Q) (md : list Member.t) i :
  Forall2 energy_only md (alter (Member.set_strain_energy e) i md).
Proof.
  apply Forall2_same_length_lookup.
  split; [by rewrite length_alter|]. intros j a b Ha Hb.
  destruct (decide (i = j)) as [->|Hne].
  - rewrite list_lookup_alter_eq, Ha in Hb. injection Hb as <-.
    apply energy_only_set.
  - rewrite list_lookup_alter_ne, Ha in Hb by done. injection Hb as <-.
    apply energy_only_refl.
Qed.

Lemma average_with_twin_energy_only (md : list Member.t) (r : nat) :
  Forall2 energy_only md (average_with_twin md r).
Proof.
  unfold average_with_twin.
  destruct (md !! r) as [el|]; [|apply Forall2_refl_list, energy_only_refl].
  destruct (Member.mirror_id el) as [m|];
    [|apply Forall2_refl_list, energy_only_refl].
  destruct (find_by_id md m) as [[j twin]|];
    [|apply Forall2_refl_list, energy_only_refl].
  destruct (Member.active twin);
    [|apply Forall2_refl_list, energy_only_refl].
  eapply Forall2_trans_list; [apply energy_only_trans|..];
    apply energy_only_alter.
Qed.

(** The symmetrization pass changes no field of any member other than
    [strain_energy], and keeps the list as it is. *)
Lemma enforce_symmetry_energy_only (refs : list nat) (md : list Member.t) :
  Forall2 energy_only md (enforce_symmetry md refs).
Proof.
  unfold enforce_symmetry. revert md.
  induction refs as [|r refs IH]; intros md; simpl.
  - apply Forall2_refl_list, energy_only_refl.
  - eapply Forall2_trans_list; [apply energy_only_trans| |apply IH].
    apply average_with_twin_energy_only.
Qed.

(** ** run_iteration fails only with the solver *)

Lemma ids_valid_pruned (st st' : list Member.t * list Element) :
  pruned st st' -> ids_valid st -> ids_valid st'.
Proof.
  intros (Hd & Ha & _) Hv el' Hel'.
  apply list_elem_of_In, list_elem_of_lookup in Hel' as [i Hi].
  destruct (Forall2_lookup_r _ _ _ _ _ Hd Hi) as (el & Hel & Hdel).
  rewrite (deactivated_id _ _ Hdel).
  destruct (Hv el) as [e He].
  { apply list_elem_of_In. by eapply list_elem_of_lookup_2. }
  destruct (Member.id el) as [|p]; [done|]. simpl in *.
  destruct (Forall2_lookup_l _ _ _ _ _ Ha He) as (e' & He' & _).
  by exists e'.
Qed.

Lemma soft_kill_element_total (em : list Element) (k : nat) :
  is_Some (lookup_element em k) ->
  exists em', soft_kill_element em k = Ok em'.
Proof.
  intros [e He]. unfold soft_kill_element. rewrite He. by eexists.
Qed.

Lemma kill_twin_total (st : list Member.t * list Element) (m : nat) :
  ids_valid st -> exists st', kill_twin st m = Ok st'.
Proof.
  intros Hv. unfold kill_twin.
  destruct (find_by_id (fst st) m) as [[j twin]|] eqn:Hfind; [|by eexists].
  destruct (Member.active twin); [|by eexists].
  apply list_find_Some in Hfind as (Hj & _ & _).
  destruct (soft_kill_element_total (snd st) (Member.id twin)) as [em' ->].
  { apply Hv. apply list_elem_of_In. by eapply list_elem_of_lookup_2. }
  by eexists.
Qed.

Lemma kill_target_total (active_list : list nat)
    (st : list Member.t * list Element) (i t : nat) :
  active_list !! i = Some t -> (t < length (fst st))%nat -> ids_valid st ->
  exists st', kill_target active_list st i = Ok st'.
Proof.
  intros Ht Hlt Hv. unfold kill_target. rewrite Ht. cbn [of_option].
  rewrite bind_Ok_l.
  destruct (lookup_lt_is_Some_2 _ _ Hlt) as [el Hel]. rewrite Hel.
  cbn [of_option]. rewrite bind_Ok_l.
  destruct (soft_kill_element_total (snd st) (Member.id el)) as [em1 Hk].
  { apply Hv. apply list_elem_of_In. by eapply list_elem_of_lookup_2. }
  rewrite Hk, bind_Ok_l.
  destruct (Member.mirror_id el) as [[|m]|]; [by eexists| |by eexists].
  apply kill_twin_total.
  apply (ids_valid_pruned (fst st, snd st)); [|by destruct st].
  by apply (pruned_kill _ _ _ _ el).
Qed.

Lemma kill_loop_total (active_list range : list nat)
    (st : list Member.t * list Element) :
  (forall i, In i range ->
     exists t, active_list !! i = Some t /\ (t < length (fst st))%nat) ->
  ids_valid st ->
  exists st', kill_loop active_list range st = Ok st'.
Proof.
  revert st. induction range as [|i range IH]; intros st Hrange Hv; simpl.
  - by eexists.
  - destruct (Hrange i (or_introl eq_refl)) as (t & Ht & Hlt).
    destruct (kill_target_total active_list st i t Ht Hlt Hv) as [s1 H1].
    rewrite H1, bind_Ok_l.
    destruct (kill_target_Ok _ _ _ _ H1) as (Hp & _).
    apply IH; [|by eapply ids_valid_pruned].
    intros k Hk. destruct (Hrange k (or_intror Hk)) as (t' & Ht' & Hlt').
    exists t'. split; [done|].
    destruct Hp as (Hd & _). by rewrite <- (Forall2_length _ _ _ Hd).
Qed.

Lemma max_active_force_total (md : list Member.t) (x : Q) :
  forces_known md -> exists f, max_active_force md x = Ok f.
Proof.
  unfold forces_known. revert x.
  induction md as [|el md IH]; intros x Hk; simpl; [by eexists|].
  apply Forall_cons in Hk as [Hel Hk].
  destruct (Member.active el); [|by apply IH].
  destruct (Hel eq_refl) as [f ->]. cbn [of_option]. rewrite bind_Ok_l.
  by apply IH.
Qed.

Lemma evaluate_energy_forces_known (results : nat -> element_results)
    (md : list Member.t) :
  forces_known (acc_md (evaluate_energy results md (active_refs md))).
Proof.
  unfold forces_known. apply Forall_lookup. intros i el1 Hi Hact.
  pose proof (evaluate_energy_frame results (active_refs md) (mkAcc md 0 0))
    as Hframe.
  destruct (Forall2_lookup_r _ _ _ _ _ Hframe Hi) as (el0 & Hel0 & Hre).
  unfold evaluate_energy in Hi.
  rewrite (evaluate_energy_lookup results (active_refs md) (mkAcc md 0 0)
             i el0 (active_refs_NoDup md) Hel0) in Hi.
  injection Hi as <-. destruct (decide (i ∈ active_refs md)) as [Hin|Hin].
  - by eexists.
  - exfalso. apply Hin, list_elem_of_In, active_refs_In. eauto.
Qed.

Lemma forces_known_energy_only (md md' : list Member.t) :
  Forall2 energy_only md md' -> forces_known md -> forces_known md'.
Proof.
  unfold forces_known. intros HF Hk. apply Forall_lookup. intros i el' Hi.
  destruct (Forall2_lookup_r _ _ _ _ _ HF Hi) as (el & Hel & He).
  pose proof (proj1 (Forall_lookup _ _) Hk i el Hel) as H.
  unfold energy_only in He. rewrite He. exact H.
Qed.

Lemma forces_known_deactivated (md md' : list Member.t) :
  Forall2 deactivated md md' -> forces_known md -> forces_known md'.
Proof.
  unfold forces_known. intros HF Hk. apply Forall_lookup. intros i el' Hi.
  destruct (Forall2_lookup_r _ _ _ _ _ HF Hi) as (el & Hel & Hd).
  pose proof (proj1 (Forall_lookup _ _) Hk i el Hel) as H.
  destruct Hd as [->| ->]; [done|]. simpl. done.
Qed.

Lemma count_to_remove_le (n : nat) (r : Q) :
  r <= 1 -> (count_to_remove n r <= n)%nat.
Proof.
  intros Hr. rewrite count_to_remove_spec.
  destruct (n <? safety_floor)%nat eqn:Hn; [lia|].
  apply Nat.ltb_ge in Hn. unfold safety_floor in Hn.
  assert (Qfloor (Qnat n * r) <= Z.of_nat n)%Z.
  { rewrite <- (Qfloor_Z (Z.of_nat n)). apply Qfloor_resp_le.
    unfold Qnat. assert (0 <= inject_Z (Z.of_nat n)).
    { change 0 with (inject_Z 0). rewrite <- Zle_Qle. lia. }
    nra. }
  lia.
Qed.

Lemma symmetrized_ids_valid (results : nat -> element_results)
    (o : TopologyOptimizer) :
  well_formed o ->
  ids_valid (symmetrized results (elements_metadata o), element_map (ss o)).
Proof.
  intros [Hids Hlen] el' Hel'. simpl in *.
  apply list_elem_of_In, list_elem_of_lookup in Hel' as [i Hi].
  destruct (Forall2_lookup_r _ _ _ _ _
              (symmetrized_frame results (elements_metadata o)) Hi)
    as (el & Hel & Hre).
  destruct Hre as (-> & _).
  assert (Hid : (Member.id <$> elements_metadata o) !! i = Some (Member.id el))
    by by rewrite list_lookup_fmap, Hel.
  rewrite Hids in Hid. apply lookup_seq in Hid as [-> Hlt].
  simpl. apply lookup_lt_is_Some_2. lia.
Qed.

(** On a well-formed structure and with a removal ratio of at most 1,
    [run_iteration] raises nothing of its own: if it fails, [solve] failed,
    with that exception. *)
Lemma run_iteration_fails_only_with_solver
    (solve : SystemElements -> result (nat -> element_results))
    (o : TopologyOptimizer) (iteration_num : nat) (r : Q) :
  well_formed o -> r <= 1 ->
  match run_iteration solve o iteration_num r with
  | Ok _ => True
  | Raise e => solve (ss o) = Raise e
  end.
Proof.
  intros Hwf Hr. unfold run_iteration.
  destruct (solve (ss o)) as [results|e]; [|done]. rewrite bind_Ok_l.
  fold (symmetrized results (elements_metadata o)).
  fold (ranked results (elements_metadata o)).
  set (md := elements_metadata o) in *.
  assert (Hlen : length (ranked results md) = length (active_refs md)).
  { unfold ranked. by rewrite sort_refs_perm. }
  assert (Hslen : length (symmetrized results md) = length md).
  { symmetry. eapply Forall2_length, symmetrized_frame. }
  destruct (kill_loop_total (ranked results md)
              (seq 0 (count_to_remove (length (ranked results md)) r))
              (symmetrized results md, element_map (ss o)))
    as [[md' em'] Hkill].
  { intros i Hi. apply in_seq in Hi.
    pose proof (count_to_remove_le (length (ranked results md)) r Hr).
    destruct (lookup_lt_is_Some_2 (ranked results md) i) as [t Ht]; [lia|].
    exists t. split; [done|]. simpl. rewrite Hslen.
    assert (Hin : In t (active_refs md)).
    { apply list_elem_of_In. unfold ranked in Ht.
      rewrite <- (sort_refs_perm (symmetrized results md)).
      by eapply list_elem_of_lookup_2. }
    apply active_refs_In in Hin as (el & Hel & _).
    by eapply lookup_lt_Some. }
  { by apply symmetrized_ids_valid. }
  unfold soft_kill_weakest. rewrite Hkill, bind_Ok_l.
  destruct (max_active_force_total md' 0) as [f ->]; [|done].
  destruct (kill_loop_Ok _ _ _ _ Hkill) as ((Hd & _) & _). simpl in Hd.
  apply (forces_known_deactivated _ _ Hd).
  unfold symmetrized.
  apply (forces_known_energy_only _ _ (enforce_symmetry_energy_only _ _)).
  apply evaluate_energy_forces_known.
Qed.

(** ** More on the driver *)

Section DriverInvariants.
Variable solve : SystemElements -> result (nat -> element_results).

(** X7.  Once [is_running] is false, no timer callback changes the optimizer,
    the iteration counter or the flag; only the label can still change, to
    "Stopped by User." when STOP is pressed. *)
Theorem halted_loop_changes_nothing (fuel : nat) (stop_pressed : nat -> bool)
    (app : TopologyApp) :
  is_running app = false ->
  optimizer (mainloop solve fuel stop_pressed app) = optimizer app /\
  iteration (mainloop solve fuel stop_pressed app) = iteration app /\
  is_running (mainloop solve fuel stop_pressed app) = false /\
  (lbl_status (mainloop solve fuel stop_pressed app) = lbl_status app \/
   lbl_status (mainloop solve fuel stop_pressed app) = Status_stopped).
Proof.
  intros Hrun. destruct fuel as [|fuel]; simpl; [auto|].
  destruct (stop_pressed (iteration app)); unfold run_loop; simpl.
  - auto.
  - rewrite Hrun. simpl. auto.
Qed.

(** X8.  When the loop ends with the status Converged, fewer than 25 members
    are active. *)
Theorem converged_means_below_floor (fuel : nat) (stop_pressed : nat -> bool)
    (app : TopologyApp) :
  is_running app = true ->
  lbl_status app <> Status_converged ->
  lbl_status (mainloop solve fuel stop_pressed app) = Status_converged ->
  (length (active_refs (elements_metadata
             (optimizer (mainloop solve fuel stop_pressed app)))) < 25)%nat.
Proof.
  revert app. induction fuel as [|fuel IH]; intros app Hrun Hlbl; simpl.
  - done.
  - destruct (stop_pressed (iteration app)); [done|].
    rewrite run_loop_running by done.
    destruct (run_iteration solve (optimizer app) (S (iteration app))
                ui_removal_ratio) as [[o out]|e] eqn:Hiter; [|done].
    destruct (active_count out <? convergence_floor)%Z eqn:Hc.
    + intros _. simpl. apply Z.ltb_lt in Hc.
      pose proof (reported_count_bounds_active _ _ _ _ _ _ Hiter).
      unfold convergence_floor in Hc. lia.
    + intros H. by apply IH in H.
Qed.

(** X9.  Started on a well-formed structure, the loop keeps the structure well
    formed, and the optimizer gives the status "Solver Error" only for an
    exception raised by the solver itself. *)
Theorem loop_errors_come_from_solver (fuel : nat) (stop_pressed : nat -> bool)
    (app : TopologyApp) (e : exn) :
  well_formed (optimizer app) ->
  (forall e', lbl_status app <> Status_solver_error e') ->
  well_formed (optimizer (mainloop solve fuel stop_pressed app)) /\
  (lbl_status (mainloop solve fuel stop_pressed app) = Status_solver_error e ->
   exists o, well_formed o /\ solve (ss o) = Raise e).
Proof.
  revert app. induction fuel as [|fuel IH]; intros app Hwf Hlbl; simpl.
  - split; [done|]. intros H. by destruct (Hlbl e).
  - destruct (stop_pressed (iteration app)).
    { unfold run_loop. simpl. split; [done|]. discriminate. }
    unfold run_loop. destruct (is_running app); simpl.
    2: { split; [done|]. intros H. by destruct (Hlbl e). }
    pose proof (run_iteration_fails_only_with_solver solve (optimizer app)
                  (S (iteration app)) ui_removal_ratio Hwf) as Hsafe.
    destruct (run_iteration solve (optimizer app) (S (iteration app))
                ui_removal_ratio) as [[o out]|e'] eqn:Hiter.
    + pose proof (run_iteration_well_formed _ _ _ _ _ _ Hiter Hwf) as Hwf'.
      destruct (active_count out <? convergence_floor)%Z.
      * simpl. split; [done|]. discriminate.
      * apply IH; [done|]. simpl. discriminate.
    + simpl. split; [done|]. intros [= ->]. exists (optimizer app).
      split; [done|]. apply Hsafe. by vm_compute.
Qed.

End DriverInvariants.

(** ** get_nid *)

Section NearestNode.
Variable hypot : Q -> Q -> Q.
Variables x y : Q.

Lemma get_nid_from_spec (nodes : list point) (nid : nat)
    (best : option nat) (md : option Q) :
  (is_Some best <-> is_Some md) ->
  match get_nid_from hypot x y nodes nid best md with
  | None => best = None /\ nodes = []
  | Some k =>
      (best = Some k /\
       exists d, md = Some d /\ forall m, In m nodes -> d <= node_distance hypot x y m) \/
      (exists i n,
         nodes !! i = Some n /\ k = (nid + i)%nat /\
         (forall d, md = Some d -> node_distance hypot x y n < d) /\
         forall j m, nodes !! j = Some m ->
           node_distance hypot x y n <= node_distance hypot x y m /\ ((j < i)%nat -> node_distance hypot x y n < node_distance hypot x y m))
  end.
Proof.
  revert nid best md. induction nodes as [|n rest IH]; intros nid best md Hc.
  - simpl. destruct best as [k|]; [|done].
    destruct md as [d|]; [|by destruct (proj1 Hc (mk_is_Some _ _ eq_refl))].
    left. split; [done|]. exists d. split; [done|]. intros m [].
  - simpl. fold (node_distance hypot x y n).
    destruct (match md with None => true | Some m => node_distance hypot x y n <? m end)
      eqn:Hcloser.
    + specialize (IH (S nid) (Some nid) (Some (node_distance hypot x y n))).
      destruct (get_nid_from hypot x y rest (S nid) (Some nid)
                  (Some (node_distance hypot x y n))) as [k|].
      2: { destruct IH as [? _]; [done|done]. }
      destruct IH as [(Hk & d & Hd & Hall)|(i & n' & Hi & Hk & Hlt & Hall)];
        [done| |].
      * injection Hk as <-. injection Hd as <-. right. exists 0%nat, n.
        split; [done|]. split; [lia|]. split.
        { intros d Hmd. rewrite Hmd in Hcloser. by apply Qltb_lt. }
        intros [|j] m Hm; simpl in Hm.
        -- injection Hm as <-. split; [lra|lia].
        -- split; [|lia]. apply Hall, list_elem_of_In.
           by eapply list_elem_of_lookup_2.
      * right. exists (S i), n'. split; [done|]. split; [lia|].
        pose proof (Hlt _ eq_refl) as Hn'. split.
        { intros d Hmd. rewrite Hmd in Hcloser. apply Qltb_lt in Hcloser.
          lra. }
        intros [|j] m Hm; simpl in Hm.
        -- injection Hm as <-. split; [lra|done].
        -- destruct (Hall j m Hm) as [H1 H2]. split; [done|].
           intros Hj. apply H2. lia.
    + destruct md as [m0|]; [|done]. apply Qltb_ge in Hcloser.
      destruct best as [b|];
        [|by destruct (proj2 Hc (mk_is_Some _ _ eq_refl))].
      specialize (IH (S nid) (Some b) (Some m0)).
      destruct (get_nid_from hypot x y rest (S nid) (Some b) (Some m0))
        as [k|].
      2: { destruct IH as [? _]; [done|done]. }
      destruct IH as [(Hk & d & Hd & Hall)|(i & n' & Hi & Hk & Hlt & Hall)];
        [done| |].
      * left. split; [done|]. exists m0. split; [done|].
        injection Hd as <-. intros m [<-|Hm]; [done|by apply Hall].
      * right. exists (S i), n'. split; [done|]. split; [lia|].
        pose proof (Hlt _ eq_refl) as Hn'. split.
        { intros d [= <-]. done. }
        intros [|j] m Hm; simpl in Hm.
        -- injection Hm as <-. split; [lra|]. intros _. lra.
        -- destruct (Hall j m Hm) as [H1 H2]. split; [done|].
           intros Hj. apply H2. lia.
Qed.

(** X10.  [get_nid] answers [None] only when the solver has no node; otherwise
    it answers the id of a node that is at least as close to [(x, y)] as every
    other node, and strictly closer than every node with a smaller id. *)
Theorem get_nid_nearest_first (ss0 : SystemElements) :
  match get_nid hypot ss0 x y with
  | None => node_map ss0 = []
  | Some k =>
      exists n,
        (1 <= k)%nat /\ node_map ss0 !! (k - 1)%nat = Some n /\
        forall j m, node_map ss0 !! j = Some m ->
          node_distance hypot x y n <= node_distance hypot x y m /\ ((j < k - 1)%nat -> node_distance hypot x y n < node_distance hypot x y m)
  end.
Proof.
  unfold get_nid.
  pose proof (get_nid_from_spec (node_map ss0) 1 None None) as H.
  destruct (get_nid_from hypot x y (node_map ss0) 1 None None) as [k|].
  - destruct H as [(Hk & _)|(i & n & Hi & -> & _ & Hall)].
    + split; intros [? [=]].
    + done.
    + exists n. replace (1 + i - 1)%nat with i by lia.
      split; [lia|]. split; [done|]. exact Hall.
  - apply H. split; intros [? [=]].
Qed.

End NearestNode.

(** ** The mirror relation has no chains *)

Lemma map_symmetry_mirror_side (hypot : Q -> Q -> Q) (span : Q)
    (md : list Member.t) (el : Member.t) (m j : nat) (twin : Member.t) :
  NoDup (Member.id <$> md) ->
  In el (map_symmetry hypot span md) ->
  Member.mirror_id el = Some m ->
  find_by_id (map_symmetry hypot span md) m = Some (j, twin) ->
  Member.mid_x el < span / 2 /\ span / 2 < Member.mid_x twin /\
  Member.mirror_id twin = None.
Proof.
  intros Hnd Hel Hm Hfind.
  unfold map_symmetry in Hel. apply in_map_iff in Hel as (el0 & <- & Hel0).
  unfold assign_mirror in Hm.
  destruct (Member.mid_x el0 <? span / 2) eqn:Hside; [|done].
  cbn in Hm. apply find_twin_Some in Hm as (k & p & Hk & Hid & Hc & _).
  assert (Hk' : map_symmetry hypot span md !! k
                = Some (assign_mirror hypot span md p)).
  { unfold map_symmetry. change map with (@fmap list _).
    by rewrite list_lookup_fmap, Hk. }
  assert (Hfind' : find_by_id (map_symmetry hypot span md) m
                   = Some (k, assign_mirror hypot span md p)).
  { rewrite <- Hid, <- (assign_mirror_id hypot span md p).
    apply find_by_id_unique; [by rewrite map_symmetry_ids|done]. }
  rewrite Hfind' in Hfind. injection Hfind as <- <-.
  destruct (assign_mirror_mid hypot span md el0) as [-> _].
  destruct (assign_mirror_mid hypot span md p) as [-> _].
  apply Qltb_lt in Hside. split; [done|]. split; [done|].
  unfold assign_mirror. destruct (Member.mid_x p <? span / 2) eqn:Hp.
  - apply Qltb_lt in Hp. lra.
  - done.
Qed.

(** X13.  In a structure built by [initialize_structure] only members left of
    the centre line have a mirror, and the member a mirror id refers to lies
    right of the centre line and has no mirror of its own: the relation is
    one-directional and has no chains. *)
Theorem mirror_is_right_and_unmirrored (hypot : Q -> Q -> Q)
    (span height load_kn E_GPa : Q) (support_type : string)
    (sp : section_params) (o : TopologyOptimizer) (el : Member.t)
    (m j : nat) (twin : Member.t) :
  initialize_structure hypot span height load_kn support_type E_GPa sp
    = Ok o ->
  In el (elements_metadata o) ->
  Member.mirror_id el = Some m ->
  find_by_id (elements_metadata o) m = Some (j, twin) ->
  Member.mid_x el < span / 2 /\ span / 2 < Member.mid_x twin /\
  Member.mirror_id twin = None.
Proof.
  intros Hinit Hel Hm Hfind.
  apply initialize_structure_parts in Hinit as (ea & ei & Hmd & _).
  rewrite Hmd in Hel, Hfind.
  eapply (map_symmetry_mirror_side hypot span); [|exact Hel|exact Hm|exact Hfind].
  destruct (build_ground_structure_spec hypot ea ei span height)
    as (_ & Hids & _).
  rewrite Hids. apply NoDup_seq.
Qed.

(** ** The logged totals *)

Lemma extract_force_nonneg (res : element_results) : 0 <= extract_force res.
Proof.
  pose proof (extract_force_spec res) as H. unfold force_spec in H.
  destruct (reported_values res) as [|v vs].
  - lra.
  - destruct H as [(w & _ & Hw) _]. pose proof (Qabs_nonneg w). lra.
Qed.

Lemma Qsum_energy_cons (results : nat -> element_results)
    (md : list Member.t) (r : nat) (refs : list nat) (el : Member.t) :
  md !! r = Some el ->
  Qsum (omap (fun r => member_energy results <$> md !! r) (r :: refs))
  = member_energy results el
    + Qsum (omap (fun r => member_energy results <$> md !! r) refs).
Proof. intros H. cbn. rewrite H. reflexivity. Qed.

Lemma evaluate_energy_totals (results : nat -> element_results)
    (md : list Member.t) (refs : list nat) (acc : energy_acc) :
  Forall2 re_evaluated md (acc_md acc) ->
  (forall r, In r refs -> is_Some (md !! r)) ->
  let acc' := fold_left (evaluate_member results) refs acc in
  total_system_energy acc'
  == total_system_energy acc
     + Qsum (omap (fun r => member_energy results <$> md !! r) refs) /\
  max_force_iter acc <= max_force_iter acc' /\
  (forall r el, In r refs -> md !! r = Some el ->
     extract_force (results (Member.id el)) <= max_force_iter acc').
Proof.
  revert acc. induction refs as [|r refs IH]; intros acc Hframe Hrefs.
  - simpl. split; [lra|]. split; [lra|]. intros r el [].
  - cbv zeta. cbn [fold_left].
    destruct (Hrefs r (or_introl eq_refl)) as [el Hel].
    rewrite (Qsum_energy_cons results md r refs el Hel).
    destruct (Forall2_lookup_l _ _ _ _ _ Hframe Hel) as (el1 & Hel1 & Hre).
    assert (Hstep : Forall2 re_evaluated md
                      (acc_md (evaluate_member results acc r))).
    { eapply Forall2_trans_list; [apply re_evaluated_trans|done|].
      apply evaluate_member_frame. }
    destruct (IH (evaluate_member results acc r) Hstep) as (Ht & Hm & Hf).
    { intros r' Hr'. apply Hrefs. by right. }
    assert (Heq : evaluate_member results acc r
                  = mkAcc (<[r := Member.set_strain_energy
                                    (member_energy results el)
                                    (Member.set_force_val
                                       (extract_force (results (Member.id el)))
                                       el1)]> (acc_md acc))
                          (total_system_energy acc + member_energy results el)
                          (if max_force_iter acc
                              <? extract_force (results (Member.id el))
                           then extract_force (results (Member.id el))
                           else max_force_iter acc)).
    { unfold evaluate_member, member_energy. rewrite Hel1.
      destruct Hre as (-> & _ & _ & _ & _ & -> & _). done. }
    rewrite Heq in Ht, Hm, Hf |- *.
    cbn [total_system_energy max_force_iter] in *.
    assert (Hmax : max_force_iter acc
                   <= (if max_force_iter acc
                          <? extract_force (results (Member.id el))
                       then extract_force (results (Member.id el))
                       else max_force_iter acc) /\
                   extract_force (results (Member.id el))
                   <= (if max_force_iter acc
                          <? extract_force (results (Member.id el))
                       then extract_force (results (Member.id el))
                       else max_force_iter acc)).
    { destruct (max_force_iter acc <? extract_force (results (Member.id el)))
        eqn:Hlt.
      - apply Qltb_lt in Hlt. lra.
      - apply Qltb_ge in Hlt. lra. }
    split; [lra|]. split; [lra|].
    intros r' el' [<-|Hr'] Hel'.
    + rewrite Hel in Hel'. injection Hel' as <-. lra.
    + by apply (Hf r' el').
Qed.

Lemma active_refs_from_members {A} (f : Member.t -> A)
    (pre md : list Member.t) :
  omap (fun r => f <$> (pre ++ md) !! r) (active_refs_from (length pre) md)
  = f <$> List.filter Member.active md.
Proof.
  revert pre. induction md as [|x md IH]; intros pre; [done|].
  assert (Hrest : omap (fun r => f <$> (pre ++ x :: md) !! r)
                       (active_refs_from (S (length pre)) md)
                  = f <$> List.filter Member.active md).
  { specialize (IH (pre ++ [x])).
    rewrite length_app, Nat.add_1_r, <- app_assoc in IH. exact IH. }
  cbn [active_refs_from List.filter]. destruct (Member.active x).
  - rewrite fmap_cons. cbn [omap list_omap].
    rewrite list_lookup_middle by done. cbn. f_equal. exact Hrest.
  - exact Hrest.
Qed.

Lemma active_refs_members {A} (f : Member.t -> A) (md : list Member.t) :
  omap (fun r => f <$> md !! r) (active_refs md)
  = f <$> List.filter Member.active md.
Proof. apply (active_refs_from_members f [] md). Qed.

Lemma active_refs_from_length (k : nat) (md : list Member.t) :
  length (active_refs_from k md) = length (List.filter Member.active md).
Proof.
  revert k. induction md as [|x md IH]; intros k; simpl; [done|].
  destruct (Member.active x); simpl; by rewrite IH.
Qed.

Lemma run_iteration_report
    (solve : SystemElements -> result (nat -> element_results))
    (o o' : TopologyOptimizer) (iteration_num : nat) (r : Q)
    (out : iteration_output) (results : nat -> element_results) :
  solve (ss o) = Ok results ->
  run_iteration solve o iteration_num r = Ok (o', out) ->
  log_iter (logged out) = iteration_num /\
  log_active (logged out) = length (active_refs (elements_metadata o)) /\
  log_max_force (logged out)
  = max_force_iter (evaluate_energy results (elements_metadata o)
                      (active_refs (elements_metadata o))) /\
  log_total_energy (logged out)
  = total_system_energy (evaluate_energy results (elements_metadata o)
                           (active_refs (elements_metadata o))) /\
  exists max_f,
    max_active_force (elements_metadata o') 0 = Ok max_f /\
    display_data out = map (display_of max_f) (elements_metadata o').
Proof.
  intros Hsolve. unfold run_iteration. rewrite Hsolve, bind_Ok_l. intros H.
  apply bind_Ok in H as ([md em] & Hkill & H).
  apply bind_Ok in H as (max_f & Hmax & H).
  injection H as <- <-. cbn.
  rewrite sort_refs_perm. repeat split; try done. by exists max_f.
Qed.

(** X14.  The logged line of an iteration gives the iteration number, the number
    of members active before pruning, the sum of [force^2 * length] over those
    members as total energy, and as maximum force a value that is at least the
    force of every one of them and never negative. *)
Theorem logged_totals
    (solve : SystemElements -> result (nat -> element_results))
    (o o' : TopologyOptimizer) (iteration_num : nat) (r : Q)
    (out : iteration_output) (results : nat -> element_results) :
  solve (ss o) = Ok results ->
  run_iteration solve o iteration_num r = Ok (o', out) ->
  log_iter (logged out) = iteration_num /\
  log_active (logged out)
  = length (List.filter Member.active (elements_metadata o)) /\
  log_total_energy (logged out)
  == Qsum (member_energy results
             <$> List.filter Member.active (elements_metadata o)) /\
  0 <= log_max_force (logged out) /\
  forall el, In el (elements_metadata o) -> Member.active el = true ->
    extract_force (results (Member.id el)) <= log_max_force (logged out).
Proof.
  intros Hsolve Hrun.
  destruct (run_iteration_report _ _ _ _ _ _ _ Hsolve Hrun)
    as (Hit & Hact & Hmax & Htot & _).
  set (md := elements_metadata o) in *.
  destruct (evaluate_energy_totals results md (active_refs md) (mkAcc md 0 0))
    as (Ht & Hm & Hf).
  { apply Forall2_refl_list, re_evaluated_refl. }
  { intros i Hi. apply active_refs_In in Hi as (el & -> & _). by eexists. }
  cbn [total_system_energy max_force_iter] in Ht, Hm.
  fold (evaluate_energy results md (active_refs md)) in Ht, Hm, Hf.
  rewrite Hit, Hact, Hmax, Htot. split; [done|]. split.
  { apply active_refs_from_length. }
  split.
  { rewrite Ht, (active_refs_members (member_energy results) md). lra. }
  split; [done|].
  intros el Hel Hactive.
  apply list_elem_of_In, list_elem_of_lookup in Hel as [i Hi].
  apply (Hf i el); [|done]. apply active_refs_In. eauto.
Qed.

(** ** The display snapshot *)

Lemma evaluate_energy_active_forces (results : nat -> element_results)
    (md : list Member.t) :
  active_forces (fun f => 0 <= f)
    (acc_md (evaluate_energy results md (active_refs md))).
Proof.
  unfold active_forces. apply Forall_lookup. intros i el1 Hi Hact.
  pose proof (evaluate_energy_frame results (active_refs md) (mkAcc md 0 0))
    as Hframe.
  destruct (Forall2_lookup_r _ _ _ _ _ Hframe Hi) as (el0 & Hel0 & Hre).
  unfold evaluate_energy in Hi.
  rewrite (evaluate_energy_lookup results (active_refs md) (mkAcc md 0 0)
             i el0 (active_refs_NoDup md) Hel0) in Hi.
  injection Hi as <-. destruct (decide (i ∈ active_refs md)) as [Hin|Hin].
  - eexists. split; [reflexivity|]. apply extract_force_nonneg.
  - exfalso. apply Hin, list_elem_of_In, active_refs_In. eauto.
Qed.

Lemma active_forces_energy_only (P : Q -> Prop) (md md' : list Member.t) :
  Forall2 energy_only md md' -> active_forces P md -> active_forces P md'.
Proof.
  unfold active_forces. intros HF Hk. apply Forall_lookup. intros i el' Hi.
  destruct (Forall2_lookup_r _ _ _ _ _ HF Hi) as (el & Hel & He).
  pose proof (proj1 (Forall_lookup _ _) Hk i el Hel) as H.
  unfold energy_only in He. rewrite He. exact H.
Qed.

Lemma active_forces_deactivated (P : Q -> Prop) (md md' : list Member.t) :
  Forall2 deactivated md md' -> active_forces P md -> active_forces P md'.
Proof.
  unfold active_forces. intros HF Hk. apply Forall_lookup. intros i el' Hi.
  destruct (Forall2_lookup_r _ _ _ _ _ HF Hi) as (el & Hel & Hd).
  pose proof (proj1 (Forall_lookup _ _) Hk i el Hel) as H.
  destruct Hd as [->| ->]; [done|]. simpl. done.
Qed.

Lemma max_active_force_bounds (md : list Member.t) (x f : Q) :
  max_active_force md x = Ok f ->
  x <= f /\
  forall el v, In el md -> Member.active el = true ->
    Member.force_val el = Some v -> v <= f.
Proof.
  revert x. induction md as [|el md IH]; intros x; simpl.
  - intros [= <-]. split; [lra|]. intros el v [].
  - destruct (Member.active el) eqn:Hact.
    + intros H. apply bind_Ok in H as (v & Hv & H). apply of_option_Ok in Hv.
      apply IH in H as [Hx Hall].
      assert (x <= (if x <? v then v else x) /\ v <= (if x <? v then v else x))
        as [H1 H2].
      { destruct (x <? v) eqn:Hlt.
        - apply Qltb_lt in Hlt. lra.
        - apply Qltb_ge in Hlt. lra. }
      split; [lra|]. intros el' v' [<-|Hin] Ha Hf.
      * rewrite Hv in Hf. injection Hf as <-. lra.
      * by apply (Hall el').
    + intros H. apply IH in H as [Hx Hall]. split; [done|].
      intros el' v' [<-|Hin] Ha Hf; [congruence|by apply (Hall el')].
Qed.

Lemma intensity_bounds (b : bar) :
  0 <= bar_force b -> bar_force b <= bar_max_force b ->
  0 <= bar_intensity b /\ bar_intensity b <= 1.
Proof.
  intros H0 Hmax. unfold bar_intensity.
  destruct (0 <? bar_max_force b) eqn:Hpos.
  - apply Qltb_lt in Hpos. split.
    + apply Qle_shift_div_l; [done|]. lra.
    + apply Qle_shift_div_r; [done|]. lra.
  - apply Qltb_ge in Hpos. split.
    + apply Qle_shift_div_l; lra.
    + apply Qle_shift_div_r; lra.
Qed.

(** X15.  The snapshot returned by an iteration has one bar per member, in
    order, with the member's end points and its flag after pruning; for every
    active bar the force lies between 0 and the common maximum, so the
    intensity the drawing code derives lies in [0, 1], the opacity in
    [0.5, 1] and the line width in [1, 4]. *)
Theorem display_bars_are_drawable
    (solve : SystemElements -> result (nat -> element_results))
    (o o' : TopologyOptimizer) (iteration_num : nat) (r : Q)
    (out : iteration_output) :
  run_iteration solve o iteration_num r = Ok (o', out) ->
  length (display_data out) = length (elements_metadata o) /\
  forall i b, display_data out !! i = Some b ->
    exists el el',
      elements_metadata o !! i = Some el /\
      elements_metadata o' !! i = Some el' /\
      bar_p1 b = Member.p1 el /\ bar_p2 b = Member.p2 el /\
      bar_active b = Member.active el' /\
      (bar_active b = true ->
       0 <= bar_force b /\ bar_force b <= bar_max_force b /\
       0 <= bar_intensity b /\ bar_intensity b <= 1 /\
       (1 # 2) <= bar_alpha b /\ bar_alpha b <= 1 /\
       1 <= bar_linewidth b /\ bar_linewidth b <= 4).
Proof.
  intros Hrun.
  pose proof (run_iteration_frame _ _ _ _ _ _ Hrun) as (Hkept & _).
  pose proof Hrun as Hinv.
  apply run_iteration_Ok in Hinv as (results & em' & Hsolve & Hkill & _).
  destruct (run_iteration_report _ _ _ _ _ _ _ Hsolve Hrun)
    as (_ & _ & _ & _ & max_f & Hmax & ->).
  split.
  { by rewrite length_map, <- (Forall2_length _ _ _ Hkept). }
  intros i b Hb. change map with (@fmap list _) in Hb.
  rewrite list_lookup_fmap in Hb.
  destruct (elements_metadata o' !! i) as [el'|] eqn:Hel'; [|done].
  injection Hb as <-.
  destruct (Forall2_lookup_r _ _ _ _ _ Hkept Hel') as (el & Hel & Hk).
  exists el, el'. destruct Hk as (_ & Hp1 & Hp2 & _).
  split; [done|]. split; [done|]. split; [done|]. split; [done|].
  split; [done|]. cbn [bar_active display_of]. intros Hact.
  assert (Hforces : active_forces (fun f => 0 <= f) (elements_metadata o')).
  { unfold soft_kill_weakest in Hkill.
    destruct (kill_loop_Ok _ _ _ _ Hkill) as ((Hd & _) & _). simpl in Hd.
    apply (active_forces_deactivated _ _ _ Hd). unfold symmetrized.
    apply (active_forces_energy_only _ _ _ (enforce_symmetry_energy_only _ _)).
    apply evaluate_energy_active_forces. }
  destruct (proj1 (Forall_lookup _ _) Hforces i el' Hel' Hact)
    as (f & Hf & Hf0).
  destruct (max_active_force_bounds _ _ _ Hmax) as (_ & Hall).
  assert (Hle : f <= max_f).
  { apply (Hall el'); [|done|done].
    apply list_elem_of_In. by eapply list_elem_of_lookup_2. }
  set (b := display_of max_f el').
  assert (Hbf : bar_force b = f) by (unfold b, display_of; by rewrite Hf).
  assert (Hbm : bar_max_force b = max_f) by done.
  destruct (intensity_bounds b) as [Hi0 Hi1];
    [by rewrite Hbf|by rewrite Hbf, Hbm|].
  rewrite Hbf, Hbm. unfold bar_alpha, bar_linewidth. repeat split; lra.
Qed.

(** ** What a pruning pass leaves alone *)

Lemma deactivated_mirror_id (el el' : Member.t) :
  deactivated el el' -> Member.mirror_id el' = Member.mirror_id el.
Proof. by intros [->| ->]. Qed.

Lemma soft_kill_element_only (em em' : list Element) (m : nat) :
  soft_kill_element em m = Ok em' ->
  forall k, em' !! k = em !! k \/ m = S k.
Proof.
  unfold soft_kill_element. intros H k.
  apply bind_Ok in H as (e & He & [= <-]). apply of_option_Ok in He.
  destruct m as [|i]; [done|]. simpl.
  destruct (decide (i = k)) as [->|Hne]; [by right|].
  left. by apply list_lookup_insert_ne.
Qed.

Lemma kill_twin_only (st st' : list Member.t * list Element) (m : nat) :
  kill_twin st m = Ok st' ->
  (forall j el el',
     fst st !! j = Some el -> fst st' !! j = Some el' ->
     Member.active el = true -> Member.active el' = false ->
     Member.id el = m) /\
  (forall k, snd st' !! k = snd st !! k \/ m = S k).
Proof.
  unfold kill_twin. destruct st as [md em]. simpl.
  destruct (find_by_id md m) as [[j0 twin]|] eqn:Hfind.
  - apply list_find_Some in Hfind as (Hj0 & Hid & _).
    destruct (Member.active twin) eqn:Hact.
    + intros H. apply bind_Ok in H as (em' & Hk & [= <-]). simpl. split.
      * intros j el el' Hel Hel' Ha Hina.
        destruct (decide (j0 = j)) as [->|Hne]; [congruence|].
        rewrite list_lookup_alter_ne in Hel' by done. congruence.
      * intros k. rewrite <- Hid. by apply soft_kill_element_only.
    + intros [= <-]. simpl. split; [intros; congruence|by left].
  - intros [= <-]. simpl. split; [intros; congruence|by left].
Qed.

Lemma kill_target_only (active_list : list nat)
    (st st' : list Member.t * list Element) (i : nat) :
  kill_target active_list st i = Ok st' ->
  exists t tel,
    active_list !! i = Some t /\ fst st !! t = Some tel /\
    (forall j el el',
       fst st !! j = Some el -> fst st' !! j = Some el' ->
       Member.active el = true -> Member.active el' = false ->
       j = t \/ Member.mirror_id tel = Some (Member.id el)) /\
    (forall k, snd st' !! k = snd st !! k \/
               Member.id tel = S k \/ Member.mirror_id tel = Some (S k)).
Proof.
  unfold kill_target. destruct st as [md em]. simpl. intros H.
  apply bind_Ok in H as (t & Ht & H). apply of_option_Ok in Ht.
  apply bind_Ok in H as (tel & Hel & H). apply of_option_Ok in Hel.
  apply bind_Ok in H as (em1 & Hk & H).
  exists t, tel. split; [done|]. split; [done|].
  pose proof (soft_kill_element_only _ _ _ Hk) as Hem1.
  assert (Hplain :
    (forall j el el',
       md !! j = Some el ->
       alter (Member.set_active false) t md !! j = Some el' ->
       Member.active el = true -> Member.active el' = false ->
       j = t \/ Member.mirror_id tel = Some (Member.id el)) /\
    (forall k, em1 !! k = em !! k \/
               Member.id tel = S k \/ Member.mirror_id tel = Some (S k))).
  { split.
    - intros j el el' Hj Hj' Ha Hina.
      destruct (decide (t = j)) as [->|Hne]; [by left|].
      rewrite list_lookup_alter_ne in Hj' by done. congruence.
    - intros k. destruct (Hem1 k); auto. }
  destruct (Member.mirror_id tel) as [[|m]|] eqn:Hm.
  - by injection H as <-.
  - apply kill_twin_only in H as (Hmd & Hem). simpl in Hmd, Hem. split.
    + intros j el el' Hj Hj' Ha Hina.
      destruct (decide (t = j)) as [->|Hne]; [by left|]. right. f_equal.
      symmetry. apply (Hmd j el el'); [|done|done|done].
      by rewrite list_lookup_alter_ne.
    + intros k. destruct (Hem k) as [->|Hmk]; [|by right; right; rewrite Hmk].
      destruct (Hem1 k); auto.
  - by injection H as <-.
Qed.

Lemma kill_loop_only (active_list range : list nat)
    (st st' : list Member.t * list Element) :
  kill_loop active_list range st = Ok st' ->
  (forall j el el',
     fst st !! j = Some el -> fst st' !! j = Some el' ->
     Member.active el = true -> Member.active el' = false ->
     exists i t tel,
       In i range /\ active_list !! i = Some t /\ fst st !! t = Some tel /\
       (j = t \/ Member.mirror_id tel = Some (Member.id el))) /\
  (forall k, snd st' !! k = snd st !! k \/
     exists i t tel,
       In i range /\ active_list !! i = Some t /\ fst st !! t = Some tel /\
       (Member.id tel = S k \/ Member.mirror_id tel = Some (S k))).
Proof.
  revert st. induction range as [|i range IH]; intros st; simpl.
  - intros [= <-]. split; [intros; congruence|by left].
  - intros H. apply bind_Ok in H as (s1 & H1 & H2).
    destruct (kill_target_Ok _ _ _ _ H1) as (Hp1 & _).
    destruct (kill_target_only _ _ _ _ H1) as (t & tel & Ht & Htel & Hmd1 & Hem1).
    destruct (IH _ H2) as (Hmd2 & Hem2).
    assert (Hback : forall i' t' tel1,
              In i' range -> active_list !! i' = Some t' ->
              fst s1 !! t' = Some tel1 ->
              exists tel0, fst st !! t' = Some tel0 /\
                Member.id tel0 = Member.id tel1 /\
                Member.mirror_id tel0 = Member.mirror_id tel1).
    { intros i' t' tel1 _ _ Hs1. destruct Hp1 as (Hd & _).
      destruct (Forall2_lookup_r _ _ _ _ _ Hd Hs1) as (tel0 & H0 & Hd0).
      exists tel0. split; [done|].
      by rewrite (deactivated_id _ _ Hd0), (deactivated_mirror_id _ _ Hd0). }
    split.
    + intros j el el' Hj Hj' Ha Hina.
      destruct (pruned_lookup _ _ _ _ Hp1 Hj) as (el1 & Hj1 & Hd1).
      destruct (Member.active el1) eqn:Ha1.
      * destruct (Hmd2 j el1 el' Hj1 Hj' Ha1 Hina)
          as (i' & t' & tel1 & Hi' & Ht' & Htel1 & Hor).
        destruct (Hback i' t' tel1 Hi' Ht' Htel1) as (tel0 & H0 & Hid & Hmir).
        exists i', t', tel0. split; [by right|]. split; [done|].
        split; [done|]. rewrite Hmir, <- (deactivated_id _ _ Hd1). done.
      * exists i, t, tel. split; [by left|]. split; [done|]. split; [done|].
        by apply (Hmd1 j el el1).
    + intros k. destruct (Hem2 k) as [->|(i' & t' & tel1 & Hi' & Ht' & Htel1 & Hor)].
      * destruct (Hem1 k) as [->|Hor]; [by left|]. right.
        exists i, t, tel. split; [by left|]. done.
      * right.
        destruct (Hback i' t' tel1 Hi' Ht' Htel1) as (tel0 & H0 & Hid & Hmir).
        exists i', t', tel0. split; [by right|]. split; [done|].
        split; [done|]. by rewrite Hid, Hmir.
Qed.

(** X16.  An iteration deactivates no member but the selected ones (the first
    [log_removed] entries of the ranked list) and the members a selected one
    names as its mirror, and it changes the stiffness of no solver element but
    theirs. *)
Theorem only_selected_and_mirrors_are_removed
    (solve : SystemElements -> result (nat -> element_results))
    (o o' : TopologyOptimizer) (iteration_num : nat) (r : Q)
    (out : iteration_output) (results : nat -> element_results) :
  solve (ss o) = Ok results ->
  run_iteration solve o iteration_num r = Ok (o', out) ->
  (forall j el el',
     elements_metadata o !! j = Some el ->
     elements_metadata o' !! j = Some el' ->
     Member.active el = true -> Member.active el' = false ->
     exists i t tel,
       (i < log_removed (logged out))%nat /\
       ranked results (elements_metadata o) !! i = Some t /\
       elements_metadata o !! t = Some tel /\
       (j = t \/ Member.mirror_id tel = Some (Member.id el))) /\
  (forall k,
     element_map (ss o') !! k = element_map (ss o) !! k \/
     exists i t tel,
       (i < log_removed (logged out))%nat /\
       ranked results (elements_metadata o) !! i = Some t /\
       elements_metadata o !! t = Some tel /\
       (Member.id tel = S k \/ Member.mirror_id tel = Some (S k))).
Proof.
  intros Hsolve Hrun.
  apply run_iteration_Ok in Hrun
    as (results' & em' & Hsolve' & Hkill & Hss & _ & _ & _ & Hlog).
  rewrite Hsolve in Hsolve'. injection Hsolve' as <-.
  rewrite Hlog, Hss. cbn [element_map set_element_map].
  unfold soft_kill_weakest in Hkill.
  destruct (kill_loop_only _ _ _ _ Hkill) as (Hmd & Hem). simpl in Hmd, Hem.
  pose proof (symmetrized_frame results (elements_metadata o)) as Hs.
  assert (Hback : forall t tels,
            symmetrized results (elements_metadata o) !! t = Some tels ->
            exists tel, elements_metadata o !! t = Some tel /\
              Member.id tel = Member.id tels /\
              Member.mirror_id tel = Member.mirror_id tels).
  { intros t tels Ht.
    destruct (Forall2_lookup_r _ _ _ _ _ Hs Ht) as (tel & Htel & Hre).
    exists tel. split; [done|]. unfold re_evaluated in Hre.
    destruct Hre as (-> & _ & _ & _ & _ & _ & _ & ->). done. }
  split.
  - intros j el el' Hj Hj' Ha Hina.
    destruct (Forall2_lookup_l _ _ _ _ _ Hs Hj) as (els & Hjs & Hre).
    assert (Has : Member.active els = true).
    { unfold re_evaluated in Hre. destruct Hre as (_ & _ & _ & _ & _ & _ & -> & _).
      done. }
    destruct (Hmd j els el' Hjs Hj' Has Hina)
      as (i & t & tels & Hi & Ht & Htels & Hor).
    destruct (Hback t tels Htels) as (tel & Htel & Hid & Hmir).
    exists i, t, tel. apply in_seq in Hi. split; [lia|]. split; [done|].
    split; [done|]. rewrite Hmir. destruct Hre as (<- & _). done.
  - intros k. destruct (Hem k) as [->|(i & t & tels & Hi & Ht & Htels & Hor)];
      [by left|right].
    destruct (Hback t tels Htels) as (tel & Htel & Hid & Hmir).
    exists i, t, tel. apply in_seq in Hi. split; [lia|]. split; [done|].
    split; [done|]. by rewrite Hid, Hmir.
Qed.

Lemma active_refs_re_evaluated (md md' : list Member.t) :
  Forall2 re_evaluated md md' -> active_refs md' = active_refs md.
Proof.
  unfold active_refs. generalize 0%nat. intros n H. revert n.
  induction H as [|a b l k Hab _ IH]; intros n; [done|].
  simpl. destruct Hab as (_ & _ & _ & _ & _ & _ & -> & _).
  by rewrite IH.
Qed.

(** X17.  With fewer than 15 active members an iteration removes nothing: the
    solver's elements, nodes, supports and loads are left as they were, the
    same members are active afterwards, and the reported count is the number
    of active members. *)
Theorem iteration_below_floor_removes_nothing
    (solve : SystemElements -> result (nat -> element_results))
    (o o' : TopologyOptimizer) (iteration_num : nat) (r : Q)
    (out : iteration_output) :
  (length (active_refs (elements_metadata o)) < safety_floor)%nat ->
  run_iteration solve o iteration_num r = Ok (o', out) ->
  ss o' = ss o /\
  active_refs (elements_metadata o') = active_refs (elements_metadata o) /\
  log_removed (logged out) = 0%nat /\
  active_count out
  = Z.of_nat (length (active_refs (elements_metadata o))).
Proof.
  intros Hn Hrun.
  apply run_iteration_Ok in Hrun
    as (results & em' & _ & Hkill & Hss & _ & _ & Hcount & Hlog).
  assert (Hc : count_to_remove (length (active_refs (elements_metadata o))) r
               = 0%nat).
  { rewrite count_to_remove_spec. apply Nat.ltb_lt in Hn. by rewrite Hn. }
  rewrite Hc in Hkill, Hcount, Hlog. unfold soft_kill_weakest in Hkill.
  simpl in Hkill. injection Hkill as Hmd Hem.
  split; [rewrite Hss, <- Hem; by destruct (ss o)|].
  split; [|split; [done|lia]].
  rewrite <- Hmd. apply active_refs_re_evaluated, symmetrized_frame.
Qed.

(** ** A removal count above the number of active members *)

Lemma kill_loop_app (active_list r1 r2 : list nat)
    (st : list Member.t * list Element) :
  kill_loop active_list (r1 ++ r2) st
  = kill_loop active_list r1 st ≫= kill_loop active_list r2.
Proof.
  revert st. induction r1 as [|i r1 IH]; intros st; [done|].
  cbn [app kill_loop]. destruct (kill_target active_list st i) as [s1|e].
  - rewrite !bind_Ok_l. apply IH.
  - reflexivity.
Qed.

Lemma count_to_remove_above (n : nat) (r : Q) :
  (safety_floor <= n)%nat -> Qnat n + 1 <= Qnat n * r ->
  (n < count_to_remove n r)%nat.
Proof.
  intros Hn Hr. rewrite count_to_remove_spec.
  apply Nat.ltb_ge in Hn. rewrite Hn.
  assert (Z.of_nat n + 1 <= Qfloor (Qnat n * r))%Z.
  { rewrite <- (Qfloor_Z (Z.of_nat n + 1)). apply Qfloor_resp_le.
    rewrite inject_Z_plus. exact Hr. }
  lia.
Qed.

(** X18.  When the removal ratio asks for more members than are active
    ([n * r >= n + 1] with [n >= 15] active members), the removal loop runs
    off the end of the sorted list and [run_iteration] raises [IndexError]. *)
Theorem removal_beyond_active_raises_IndexError
    (solve : SystemElements -> result (nat -> element_results))
    (o : TopologyOptimizer) (iteration_num : nat) (r : Q)
    (results : nat -> element_results) :
  well_formed o ->
  solve (ss o) = Ok results ->
  (safety_floor <= length (active_refs (elements_metadata o)))%nat ->
  Qnat (length (active_refs (elements_metadata o))) + 1
  <= Qnat (length (active_refs (elements_metadata o))) * r ->
  run_iteration solve o iteration_num r = Raise IndexError.
Proof.
  intros Hwf Hsolve Hn Hr. unfold run_iteration. rewrite Hsolve, bind_Ok_l.
  fold (symmetrized results (elements_metadata o)).
  fold (ranked results (elements_metadata o)).
  set (md := elements_metadata o) in *.
  assert (Hlen : length (ranked results md) = length (active_refs md)).
  { unfold ranked. by rewrite sort_refs_perm. }
  assert (Hslen : length (symmetrized results md) = length md).
  { symmetry. eapply Forall2_length, symmetrized_frame. }
  rewrite Hlen. set (n := length (active_refs md)) in *.
  pose proof (count_to_remove_above n r Hn Hr) as Hcount.
  destruct (count_to_remove n r) as [|c]; [lia|].
  unfold soft_kill_weakest.
  replace (S c) with (n + S (c - n))%nat by lia.
  rewrite seq_app, kill_loop_app.
  destruct (kill_loop_total (ranked results md) (seq 0 n)
              (symmetrized results md, element_map (ss o)))
    as [s1 Hs1].
  { intros i Hi. apply in_seq in Hi.
    destruct (lookup_lt_is_Some_2 (ranked results md) i) as [t Ht]; [lia|].
    exists t. split; [done|]. simpl. rewrite Hslen.
    assert (Hin : In t (active_refs md)).
    { apply list_elem_of_In. unfold ranked in Ht.
      rewrite <- (sort_refs_perm (symmetrized results md)).
      by eapply list_elem_of_lookup_2. }
    apply active_refs_In in Hin as (el & Hel & _).
    by eapply lookup_lt_Some. }
  { by apply symmetrized_ids_valid. }
  rewrite Hs1, bind_Ok_l. cbn [seq kill_loop Nat.add]. unfold kill_target.
  rewrite (lookup_ge_None_2 (ranked results md) n) by lia. reflexivity.
Qed.

(** ** The solver model after [initialize_structure] *)

Lemma connect_fold_system (hypot : Q -> Q -> Q) (max_dist : Q)
    (pairs : list (point * point)) (st : SystemElements * list Member.t) :
  sys_EA (fst (fold_left (connect hypot max_dist) pairs st)) = sys_EA (fst st) /\
  sys_EI (fst (fold_left (connect hypot max_dist) pairs st)) = sys_EI (fst st) /\
  loads (fst (fold_left (connect hypot max_dist) pairs st)) = loads (fst st) /\
  (Forall (fun e => e = mkElement (sys_EA (fst st)) (sys_EI (fst st)))
          (element_map (fst st)) ->
   Forall (fun e => e = mkElement (sys_EA (fst st)) (sys_EI (fst st)))
          (element_map (fst (fold_left (connect hypot max_dist) pairs st)))).
Proof.
  revert st. induction pairs as [|pq pairs IH]; intros st; [done|].
  cbn [fold_left]. destruct (IH (connect hypot max_dist st pq))
    as (H1 & H2 & H3 & H4).
  rewrite H1, H2, H3. rewrite connect_eq in H4 |- *.
  destruct (qualifies hypot max_dist pq); [|done].
  cbn [fst add_element sys_EA sys_EI loads element_map] in H4 |- *.
  repeat split; try done. intros H. apply H4.
  apply Forall_app. split; [done|]. by constructor.
Qed.

Lemma build_ground_structure_system (hypot : Q -> Q -> Q)
    (ea ei span height : Q) :
  loads (fst (build_ground_structure hypot (new_system ea ei) span height))
  = [] /\
  supports (fst (build_ground_structure hypot (new_system ea ei) span height))
  = [] /\
  Forall (fun e => e = mkElement ea ei)
    (element_map
       (fst (build_ground_structure hypot (new_system ea ei) span height))).
Proof.
  unfold build_ground_structure.
  generalize (combinations2 (grid_nodes span height))
             (max_connection_distance span).
  intros pairs max_dist.
  destruct (connect_fold_system hypot max_dist pairs (new_system ea ei, []))
    as (_ & _ & H3 & H4).
  split; [exact H3|]. split; [apply connect_fold_supports|].
  apply H4. constructor.
Qed.

(** X19.  In the structure built by [initialize_structure] every solver element
    carries the stiffness of the section, [EA = E * A] and [EI = E * I] with
    [E] the modulus in Pa, and the one load is [-load_kn] at the node nearest
    to the top middle [(span / 2, height)], whose id is kept in
    [load_node_id]. *)
Theorem initial_stiffness_and_load (hypot : Q -> Q -> Q)
    (span height load_kn E_GPa : Q) (support_type : string)
    (sp : section_params) (o : TopologyOptimizer) :
  initialize_structure hypot span height load_kn support_type E_GPa sp
    = Ok o ->
  E_active o = E_GPa * inject_Z (10 ^ 9) /\
  Forall (fun e =>
            e = mkElement
                  (E_active o
                   * fst (calculate_i_section_properties
                            (sec_B sp) (sec_D sp) (sec_tw sp) (sec_tf sp)))
                  (E_active o
                   * snd (calculate_i_section_properties
                            (sec_B sp) (sec_D sp) (sec_tw sp) (sec_tf sp))))
         (element_map (ss o)) /\
  load_node_id o = get_nid hypot (ss o) (span / 2) height /\
  loads (ss o) = [(load_node_id o, - load_kn)].
Proof.
  intros H.
  apply initialize_structure_inv
    in H as (ea & ei & ss2 & Hea & Hei & Hs & Hp & _ & Hnode & HE).
  destruct (build_ground_structure_system hypot ea ei span height)
    as (Hloads & _ & Hel).
  apply point_load_Ok in Hp as (_ & He3 & Hn3 & _ & Hl3).
  apply apply_supports_Ok in Hs as (He2 & _ & Hl2 & _).
  split; [done|]. split.
  { rewrite He3, He2, HE, <- Hea, <- Hei. exact Hel. }
  split.
  { unfold get_nid. by rewrite Hn3. }
  by rewrite Hl3, Hl2, Hloads, Hnode.
Qed.

(** X20.  Each of the three support names puts exactly two supports, on the
    nodes nearest to the lower corners [(0, 0)] and [(span, 0)]: hinged and
    roller, fixed and fixed, or hinged and hinged. *)
Theorem supports_of_named_conditions (hypot : Q -> Q -> Q)
    (span height load_kn E_GPa : Q) (support_type : string)
    (sp : section_params) (o : TopologyOptimizer) :
  initialize_structure hypot span height load_kn support_type E_GPa sp
    = Ok o ->
  (support_type = "Pinned-Roller"%string ->
   supports (ss o) = [(Hinged, get_nid hypot (ss o) 0 0);
                      (Roll, get_nid hypot (ss o) span 0)]) /\
  (support_type = "Fixed-Fixed"%string ->
   supports (ss o) = [(Fixed, get_nid hypot (ss o) 0 0);
                      (Fixed, get_nid hypot (ss o) span 0)]) /\
  (support_type = "Pinned-Pinned"%string ->
   supports (ss o) = [(Hinged, get_nid hypot (ss o) 0 0);
                      (Hinged, get_nid hypot (ss o) span 0)]).
Proof.
  intros H.
  apply initialize_structure_inv
    in H as (ea & ei & ss2 & _ & _ & Hs & Hp & _).
  apply point_load_Ok in Hp as (_ & _ & Hn3 & Hs3 & _).
  apply apply_supports_Ok in Hs as (_ & Hn2 & _ & Hs2).
  rewrite build_ground_structure_supports, app_nil_l in Hs2.
  assert (Hnid : forall x y,
            get_nid hypot (ss o) x y
            = get_nid hypot
                (fst (build_ground_structure hypot (new_system ea ei)
                        span height)) x y).
  { intros x y. unfold get_nid. by rewrite Hn3, Hn2. }
  rewrite !Hnid, Hs3, Hs2.
  repeat split; by intros ->.
Qed.

(** ** Grid nodes are distinct for spans above the rounding step *)

Lemma round_half_even_near (x : Q) :
  x - (1 # 2) <= inject_Z (round_half_even x) /\
  inject_Z (round_half_even x) <= x + (1 # 2).
Proof.
  unfold round_half_even.
  pose proof (Qfloor_le x) as Hlo. pose proof (Qlt_floor x) as Hhi.
  rewrite inject_Z_plus in Hhi. change (inject_Z 1) with 1 in Hhi.
  destruct (x - inject_Z (Qfloor x) <? 1 # 2) eqn:H1.
  { apply Qltb_lt in H1. lra. }
  apply Qltb_ge in H1.
  destruct ((1 # 2) <? x - inject_Z (Qfloor x)) eqn:H2.
  { rewrite inject_Z_plus. change (inject_Z 1) with 1. lra. }
  apply Qltb_ge in H2.
  destruct (Z.even (Qfloor x)).
  - lra.
  - rewrite inject_Z_plus. change (inject_Z 1) with 1. lra.
Qed.

Lemma round3_lt (x y : Q) : x + (1 # 1000) < y -> round3 x < round3 y.
Proof.
  intros H. unfold round3.
  destruct (round_half_even_near (x * 1000)) as [_ Hx].
  destruct (round_half_even_near (y * 1000)) as [Hy _].
  unfold Qdiv. change (/ 1000) with (1 # 1000). lra.
Qed.

Lemma Qnat_lt (i j : nat) : (i < j)%nat -> Qnat i + 1 <= Qnat j.
Proof.
  intros H. unfold Qnat. change 1 with (inject_Z 1).
  rewrite <- inject_Z_plus, <- Zle_Qle. lia.
Qed.

Lemma Qnat_nonneg (i : nat) : 0 <= Qnat i.
Proof. unfold Qnat. change 0 with (inject_Z 0). rewrite <- Zle_Qle. lia. Qed.

Lemma round3_steps_injective (d : Q) (i j : nat) :
  (1 # 1000) < d -> round3 (Qnat i * d) == round3 (Qnat j * d) -> i = j.
Proof.
  intros Hd Heq.
  assert (Hlt : forall a b, (a < b)%nat ->
            round3 (Qnat a * d) < round3 (Qnat b * d)).
  { intros a b Hab. apply round3_lt.
    pose proof (Qnat_lt a b Hab). pose proof (Qnat_nonneg a). nra. }
  destruct (Nat.lt_trichotomy i j) as [H|[H|H]]; [|done|].
  - apply Hlt in H. lra.
  - apply Hlt in H. lra.
Qed.

Lemma row_distinct (x : Q) (g : nat -> Q) (ys : list nat) :
  NoDup ys -> (forall j j', g j == g j' -> j = j') ->
  distinct_points (map (fun j => (x, g j)) ys).
Proof.
  intros Hnd Hg. unfold distinct_points.
  induction Hnd as [|j ys Hj _ IH]; [done|]. cbn [map pairwise].
  split; [|done]. apply List.Forall_forall. intros q Hq.
  apply in_map_iff in Hq as (j' & <- & Hj'). intros [_ Hs]. cbn in Hs.
  apply Hg in Hs. subst j'. by apply Hj, list_elem_of_In.
Qed.

Lemma grid_distinct (f g : nat -> Q) (xs ys : list nat) :
  NoDup xs -> NoDup ys ->
  (forall i i', f i == f i' -> i = i') ->
  (forall j j', g j == g j' -> j = j') ->
  distinct_points (flat_map (fun i => map (fun j => (f i, g j)) ys) xs).
Proof.
  intros Hxs Hys Hf Hg. unfold distinct_points.
  induction Hxs as [|i xs Hi _ IH]; [done|]. cbn [flat_map].
  apply pairwise_app. split; [by apply row_distinct|]. split; [done|].
  intros p q Hp Hq. apply in_map_iff in Hp as (j & <- & _).
  apply in_flat_map in Hq as (i' & Hi' & Hq).
  apply in_map_iff in Hq as (j' & <- & _). intros [Hs _]. cbn in Hs.
  apply Hf in Hs. subst i'. by apply Hi, list_elem_of_In.
Qed.

(** X21.  For a span above 8 mm and a height above 3 mm (grid steps above the
    rounding step of 0.001) the rounded grid nodes are pairwise distinct. *)
Theorem grid_nodes_distinct (span height : Q) :
  (8 # 1000) < span -> (3 # 1000) < height ->
  distinct_points (grid_nodes span height).
Proof.
  intros Hs Hh. unfold grid_nodes.
  apply (grid_distinct (fun i => round3 (Qnat i * (span / Qnat x_divs)))
                       (fun j => round3 (Qnat j * (height / Qnat y_divs)))).
  - apply NoDup_seq.
  - apply NoDup_seq.
  - intros i i'. apply round3_steps_injective.
    change (Qnat x_divs) with 8. unfold Qdiv. change (/ 8) with (1 # 8). lra.
  - intros j j'. apply round3_steps_injective.
    change (Qnat y_divs) with 3. unfold Qdiv. change (/ 3) with (1 # 3). lra.
Qed.

(** * Summary theorems and concrete instances *)

(** X1.  An iteration never adds, deletes or reorders members or solver
    elements, never changes a member's geometry, id or mirror id, never
    re-activates a member, changes a stiffness only by soft kills, and leaves
    nodes, supports and loads alone. *)
Theorem iteration_keeps_structure
    (solve : SystemElements -> result (nat -> element_results))
    (o o' : TopologyOptimizer) (iteration_num : nat) (r : Q)
    (out : iteration_output) :
  run_iteration solve o iteration_num r = Ok (o', out) ->
  Forall2 kept (elements_metadata o) (elements_metadata o') /\
  Forall2 attenuated (element_map (ss o)) (element_map (ss o')) /\
  node_map (ss o') = node_map (ss o) /\
  supports (ss o') = supports (ss o) /\
  loads (ss o') = loads (ss o).
Proof. apply run_iteration_frame. Qed.

(** X2.  The active count returned by [run_iteration] is an upper bound of the
    number of members that are active afterwards (mirrors removed with their
    partners are not subtracted). *)
Theorem reported_count_is_upper_bound
    (solve : SystemElements -> result (nat -> element_results))
    (o o' : TopologyOptimizer) (iteration_num : nat) (r : Q)
    (out : iteration_output) :
  run_iteration solve o iteration_num r = Ok (o', out) ->
  (Z.of_nat (length (active_refs (elements_metadata o'))) <= active_count out)%Z.
Proof. apply reported_count_bounds_active. Qed.

(** X3.  In every structure built by [initialize_structure] the members are
    numbered 1, 2, ... in list order and the solver holds exactly one element
    per member. *)
Theorem built_structure_is_well_formed (hypot : Q -> Q -> Q)
    (span height load_kn E_GPa : Q) (support_type : string)
    (sp : section_params) (o : TopologyOptimizer) :
  initialize_structure hypot span height load_kn support_type E_GPa sp
    = Ok o ->
  well_formed o.
Proof. apply initialize_structure_well_formed. Qed.

(** X4.  [run_iteration] keeps the numbering of the members and the
    one-element-per-member correspondence with the solver. *)
Theorem iteration_keeps_well_formed
    (solve : SystemElements -> result (nat -> element_results))
    (o o' : TopologyOptimizer) (iteration_num : nat) (r : Q)
    (out : iteration_output) :
  run_iteration solve o iteration_num r = Ok (o', out) ->
  well_formed o -> well_formed o'.
Proof. apply run_iteration_well_formed. Qed.

(** X5.  On a well-formed structure and with a removal ratio of at most 1,
    [run_iteration] raises no exception of its own (no [KeyError], no
    [IndexError]): if it fails, [solve] failed, with that exception. *)
Theorem iteration_errors_are_solver_errors
    (solve : SystemElements -> result (nat -> element_results))
    (o : TopologyOptimizer) (iteration_num : nat) (r : Q) :
  well_formed o -> r <= 1 ->
  match run_iteration solve o iteration_num r with
  | Ok _ => True
  | Raise e => solve (ss o) = Raise e
  end.
Proof. apply run_iteration_fails_only_with_solver. Qed.

(** X6.  The symmetrization step writes [strain_energy] and nothing else: every
    member keeps its id, geometry, flag, mirror id and force value, and the
    list keeps its length and order. *)
Theorem symmetrization_writes_energy_only (md : list Member.t)
    (active_list : list nat) :
  Forall2 energy_only md (enforce_symmetry md active_list).
Proof. apply enforce_symmetry_energy_only. Qed.

(** ** Concrete instances *)

Lemma iteration_keeps_structure_witness :
  exists o' out,
    run_iteration (two_level_solver [] 1 1) toy_optimizer 1 ui_removal_ratio
    = Ok (o', out) /\
    Forall2 kept (elements_metadata toy_optimizer) (elements_metadata o').
Proof.
  exists_run (two_level_solver [] 1 1) toy_optimizer 1%nat ui_removal_ratio.
  by_running.
  match goal with
  | Hrun : run_iteration ?s ?o ?n ?r = Ok (?o', ?out) |- _ =>
      exact (proj1 (iteration_keeps_structure s o o' n r out Hrun))
  end.
Defined.

Lemma reported_count_is_upper_bound_witness :
  exists o o' out,
    default_structure = Ok o /\
    run_iteration (two_level_solver [3%nat] 2 1) o 1 ui_removal_ratio
    = Ok (o', out) /\
    (Z.of_nat (length (active_refs (elements_metadata o')))
     <= active_count out)%Z.
Proof.
  exists_default_run (two_level_solver [3%nat] 2 1) 1%nat ui_removal_ratio.
  split; [vm_compute; reflexivity|]. by_running.
  match goal with
  | Hrun : run_iteration ?s ?o ?n ?r = Ok (?o', ?out) |- _ =>
      exact (reported_count_is_upper_bound s o o' n r out Hrun)
  end.
Defined.

Lemma built_structure_is_well_formed_witness :
  exists o, default_structure = Ok o /\ well_formed o.
Proof.
  exists_default.
  match goal with
  | |- default_structure = Ok ?o /\ _ =>
      assert (Hinit : initialize_structure hypot9 16 5 800000 "Pinned-Roller"
                        200 default_section = Ok o)
        by (vm_compute; reflexivity);
      split; [exact Hinit|];
      exact (built_structure_is_well_formed hypot9 16 5 800000 200
               "Pinned-Roller" default_section o Hinit)
  end.
Defined.

Lemma iteration_keeps_well_formed_witness :
  exists o' out,
    run_iteration (two_level_solver [] 1 1) toy_optimizer 1 ui_removal_ratio
    = Ok (o', out) /\
    well_formed toy_optimizer /\ well_formed o'.
Proof.
  exists_run (two_level_solver [] 1 1) toy_optimizer 1%nat ui_removal_ratio.
  by_running. split; [split; reflexivity|].
  match goal with
  | Hrun : run_iteration ?s ?o ?n ?r = Ok (?o', ?out) |- _ =>
      apply (iteration_keeps_well_formed s o o' n r out Hrun)
  end.
  split; reflexivity.
Defined.

Lemma iteration_errors_are_solver_errors_witness :
  well_formed toy_optimizer /\ ui_removal_ratio <= 1 /\
  match run_iteration failing_solver toy_optimizer 1 ui_removal_ratio with
  | Ok _ => True
  | Raise e => failing_solver (ss toy_optimizer) = Raise e
  end.
Proof.
  split; [split; reflexivity|]. split; [by vm_compute|].
  apply (iteration_errors_are_solver_errors failing_solver toy_optimizer 1
           ui_removal_ratio).
  - split; reflexivity.
  - by vm_compute.
Defined.

Lemma halted_loop_changes_nothing_witness :
  is_running (stop_optimization toy_app) = false /\
  optimizer (mainloop (two_level_solver [] 1 1) 3 (fun _ => false)
               (stop_optimization toy_app))
  = optimizer (stop_optimization toy_app).
Proof.
  split; [reflexivity|].
  apply (halted_loop_changes_nothing (two_level_solver [] 1 1) 3
           (fun _ => false) (stop_optimization toy_app)).
  reflexivity.
Defined.

Lemma converged_means_below_floor_witness :
  is_running toy_app = true /\
  lbl_status toy_app <> Status_converged /\
  lbl_status (mainloop (two_level_solver [] 1 1) 1 (fun _ => false) toy_app)
  = Status_converged /\
  (length (active_refs (elements_metadata
             (optimizer (mainloop (two_level_solver [] 1 1) 1
                           (fun _ => false) toy_app)))) < 25)%nat.
Proof.
  split; [reflexivity|]. split; [discriminate|].
  split; [vm_compute; reflexivity|].
  apply (converged_means_below_floor (two_level_solver [] 1 1) 1
           (fun _ => false) toy_app).
  - reflexivity.
  - discriminate.
  - vm_compute. reflexivity.
Defined.

Lemma loop_errors_come_from_solver_witness :
  well_formed (optimizer toy_app) /\
  (forall e', lbl_status toy_app <> Status_solver_error e') /\
  lbl_status (mainloop failing_solver 1 (fun _ => false) toy_app)
  = Status_solver_error SolverError /\
  exists o, well_formed o /\ failing_solver (ss o) = Raise SolverError.
Proof.
  split; [split; reflexivity|]. split; [intros e'; discriminate|].
  split; [vm_compute; reflexivity|].
  apply (loop_errors_come_from_solver failing_solver 1 (fun _ => false)
           toy_app SolverError).
  - split; reflexivity.
  - intros e'. discriminate.
  - vm_compute. reflexivity.
Defined.

Lemma mirror_is_right_and_unmirrored_witness :
  exists o el j twin,
    default_structure = Ok o /\
    In el (elements_metadata o) /\
    Member.mirror_id el = Some 105%nat /\
    find_by_id (elements_metadata o) 105 = Some (j, twin) /\
    Member.mid_x el < 16 / 2 /\ 16 / 2 < Member.mid_x twin /\
    Member.mirror_id twin = None.
Proof.
  let v := eval vm_compute in default_structure in
  match v with
  | Ok ?o =>
      let md := eval vm_compute in (elements_metadata o) in
      match md with
      | ?el :: _ =>
          let f := eval vm_compute in (find_by_id md 105) in
          match f with
          | Some (?j, ?twin) => exists o, el, j, twin
          end
      end
  end.
  match goal with
  | |- default_structure = Ok ?o /\ In ?el _ /\ _ = Some ?m /\
       _ = Some (?j, ?twin) /\ _ =>
      assert (Hinit : initialize_structure hypot9 16 5 800000 "Pinned-Roller"
                        200 default_section = Ok o)
        by (vm_compute; reflexivity);
      assert (Hin : In el (elements_metadata o)) by (left; reflexivity);
      assert (Hm : Member.mirror_id el = Some m) by reflexivity;
      assert (Hfind : find_by_id (elements_metadata o) m = Some (j, twin))
        by (vm_compute; reflexivity);
      split; [exact Hinit|]; split; [exact Hin|]; split; [exact Hm|];
      split; [exact Hfind|];
      exact (mirror_is_right_and_unmirrored hypot9 16 5 800000 200
               "Pinned-Roller" default_section o el m j twin
               Hinit Hin Hm Hfind)
  end.
Defined.

Lemma logged_totals_witness :
  exists o' out,
    run_iteration (two_level_solver [] 1 1) toy_optimizer 1 ui_removal_ratio
    = Ok (o', out) /\
    two_level_solver [] 1 1 (ss toy_optimizer)
    = Ok (two_level_results [] 1 1) /\
    log_total_energy (logged out)
    == Qsum (member_energy (two_level_results [] 1 1)
               <$> List.filter Member.active (elements_metadata toy_optimizer)).
Proof.
  exists_run (two_level_solver [] 1 1) toy_optimizer 1%nat ui_removal_ratio.
  by_running. split; [reflexivity|].
  match goal with
  | Hrun : run_iteration ?s ?o ?n ?r = Ok (?o', ?out) |- _ =>
      exact (proj1 (proj2 (proj2
               (logged_totals s o o' n r out (two_level_results [] 1 1)
                  eq_refl Hrun))))
  end.
Defined.

Lemma display_bars_are_drawable_witness :
  exists o' out,
    run_iteration (two_level_solver [1%nat] 1 2) toy_optimizer 1
                  ui_removal_ratio
    = Ok (o', out) /\
    length (display_data out) = length (elements_metadata toy_optimizer).
Proof.
  exists_run (two_level_solver [1%nat] 1 2) toy_optimizer 1%nat
             ui_removal_ratio.
  by_running.
  match goal with
  | Hrun : run_iteration ?s ?o ?n ?r = Ok (?o', ?out) |- _ =>
      exact (proj1 (display_bars_are_drawable s o o' n r out Hrun))
  end.
Defined.

Lemma only_selected_and_mirrors_are_removed_witness :
  exists o o' out,
    default_structure = Ok o /\
    run_iteration (two_level_solver [3%nat] 2 1) o 1 ui_removal_ratio
    = Ok (o', out) /\
    two_level_solver [3%nat] 2 1 (ss o) = Ok (two_level_results [3%nat] 2 1) /\
    forall j el el',
      elements_metadata o !! j = Some el ->
      elements_metadata o' !! j = Some el' ->
      Member.active el = true -> Member.active el' = false ->
      exists i t tel,
        (i < log_removed (logged out))%nat /\
        ranked (two_level_results [3%nat] 2 1) (elements_metadata o) !! i
        = Some t /\
        elements_metadata o !! t = Some tel /\
        (j = t \/ Member.mirror_id tel = Some (Member.id el)).
Proof.
  exists_default_run (two_level_solver [3%nat] 2 1) 1%nat ui_removal_ratio.
  split; [vm_compute; reflexivity|]. by_running. split; [reflexivity|].
  match goal with
  | Hrun : run_iteration ?s ?o ?n ?r = Ok (?o', ?out) |- _ =>
      exact (proj1 (only_selected_and_mirrors_are_removed s o o' n r out
                      (two_level_results [3%nat] 2 1) eq_refl Hrun))
  end.
Defined.

Lemma iteration_below_floor_removes_nothing_witness :
  exists o' out,
    run_iteration (two_level_solver [] 1 1) toy_optimizer 1 ui_removal_ratio
    = Ok (o', out) /\
    (length (active_refs (elements_metadata toy_optimizer))
     < safety_floor)%nat /\
    ss o' = ss toy_optimizer.
Proof.
  exists_run (two_level_solver [] 1 1) toy_optimizer 1%nat ui_removal_ratio.
  by_running.
  assert (Hn : (length (active_refs (elements_metadata toy_optimizer))
                < safety_floor)%nat) by (vm_compute; lia).
  split; [exact Hn|].
  match goal with
  | Hrun : run_iteration ?s ?o ?n ?r = Ok (?o', ?out) |- _ =>
      exact (proj1 (iteration_below_floor_removes_nothing s o o' n r out
                      Hn Hrun))
  end.
Defined.

Lemma removal_beyond_active_raises_IndexError_witness :
  exists o,
    default_structure = Ok o /\
    well_formed o /\
    two_level_solver [] 1 1 (ss o) = Ok (two_level_results [] 1 1) /\
    (safety_floor <= length (active_refs (elements_metadata o)))%nat /\
    Qnat (length (active_refs (elements_metadata o))) + 1
    <= Qnat (length (active_refs (elements_metadata o))) * 2 /\
    run_iteration (two_level_solver [] 1 1) o 1 2 = Raise IndexError.
Proof.
  exists_default.
  split; [vm_compute; reflexivity|].
  match goal with
  | |- well_formed ?o /\ _ =>
      assert (Hwf : well_formed o) by (split; vm_compute; reflexivity);
      assert (Hn : (safety_floor
                    <= length (active_refs (elements_metadata o)))%nat)
        by (vm_compute; lia);
      assert (Hr : Qnat (length (active_refs (elements_metadata o))) + 1
                   <= Qnat (length (active_refs (elements_metadata o))) * 2)
        by (by vm_compute);
      split; [exact Hwf|]; split; [reflexivity|]; split; [exact Hn|];
      split; [exact Hr|];
      exact (removal_beyond_active_raises_IndexError
               (two_level_solver [] 1 1) o 1 2 (two_level_results [] 1 1)
               Hwf eq_refl Hn Hr)
  end.
Defined.

Lemma initial_stiffness_and_load_witness :
  exists o,
    default_structure = Ok o /\
    loads (ss o) = [(load_node_id o, - 800000)].
Proof.
  exists_default.
  match goal with
  | |- default_structure = Ok ?o /\ _ =>
      assert (Hinit : initialize_structure hypot9 16 5 800000 "Pinned-Roller"
                        200 default_section = Ok o)
        by (vm_compute; reflexivity);
      split; [exact Hinit|];
      exact (proj2 (proj2 (proj2
               (initial_stiffness_and_load hypot9 16 5 800000 200
                  "Pinned-Roller" default_section o Hinit))))
  end.
Defined.

Lemma supports_of_named_conditions_witness :
  exists o,
    default_structure = Ok o /\
    supports (ss o) = [(Hinged, get_nid hypot9 (ss o) 0 0);
                       (Roll, get_nid hypot9 (ss o) 16 0)].
Proof.
  exists_default.
  match goal with
  | |- default_structure = Ok ?o /\ _ =>
      assert (Hinit : initialize_structure hypot9 16 5 800000 "Pinned-Roller"
                        200 default_section = Ok o)
        by (vm_compute; reflexivity);
      split; [exact Hinit|];
      exact (proj1 (supports_of_named_conditions hypot9 16 5 800000 200
                      "Pinned-Roller" default_section o Hinit) eq_refl)
  end.
Defined.

Lemma grid_nodes_distinct_witness :
  (8 # 1000) < 16 /\ (3 # 1000) < 5 /\ distinct_points (grid_nodes 16 5).
Proof.
  split; [by vm_compute|]. split; [by vm_compute|].
  apply (grid_nodes_distinct 16 5); by vm_compute.
Defined.
